(** * game-wishlist-bot: the wishlist store, the catalog resolver, the
      classifier, the submission handler and the completion monitor

    A shallow embedding of the bot's entry point (the revision whose
    search cache holds result lists and which answers autocomplete
    requests) and theorems about it.

    Conventions of the embedding.
    - A JavaScript string is its sequence of UTF-16 code units, a
      [list N].  String literals of the source are written [lit "..."].
    - [String.prototype.toLowerCase] and [toUpperCase] are functions of the
      JavaScript runtime, not of this repository: the definitions take
      them from the class [Runtime], and the theorems hold for every
      instance.  [ascii_runtime] has the runtime's functions on strings of
      ASCII code units; it is used where a definition is evaluated on a
      concrete input.
    - A [number] holding a catalog identifier is the [Z] of its value.
      Every integer up to 2^53 is a number; [parseInt] rounds a longer run
      of digits to the nearest number ([to_double]), and a template
      literal prints a number above 2^53 with the fewest digits that
      denote it, in exponent form from 10^21 on ([number_to_string]).
    - The module-level variables [singleList], [multiList] and
      [steamCache] are the fields of an explicit [store] that every handler
      receives and returns.
    - What the outside world answers (the store API's response, the
      member list, the users of a reaction, whether a channel can be
      created, whether an autocomplete response is accepted) is an
      argument of the handler.
    - Calls into discord.js that the source does not guard with
      [try]/[catch] (the fetch of a channel, the setters of [EmbedBuilder],
      which throw on a value they do not accept such as an empty title or
      image link, [send], [reply], the fetch of a reaction's users) are
      modelled on the runs on which they return: the outcome of a handler
      is its outcome on such a run.  On a run that one of these calls cuts
      short, the steps made are an initial part of the handler's
      [out_trace]. *)

From Stdlib Require Import ZArith NArith Ascii String DecimalString DecimalPos List Bool Lia.
From stdpp Require Import base option list gmap.

#[local] Set Warnings "-clear-no-such-hyp".
#[local] Set Default Proof Using "Type".
Local Open Scope N_scope.

(** ** JavaScript strings *)

Abbreviation jsstring := (list N).

Definition lit (s : string) : jsstring :=
  map N_of_ascii (list_ascii_of_string s).

(** [s.startsWith(p)], used by the matchers below. *)
Fixpoint starts_with (p s : jsstring) : bool :=
  match p, s with
  | [], _ => true
  | a :: p', b :: s' => (a =? b) && starts_with p' s'
  | _ :: _, [] => false
  end.

(** [s.includes(needle)]: some suffix of [s] starts with [needle]. *)
Fixpoint includes (s needle : jsstring) : bool :=
  starts_with needle s ||
  match s with
  | [] => false
  | _ :: s' => includes s' needle
  end.

(** [a === b] on strings. *)
Definition str_eqb (a b : jsstring) : bool := bool_decide (a = b).

(** [arr.includes(x)] on an array of strings. *)
Definition array_includes (arr : list jsstring) (x : jsstring) : bool :=
  existsb (fun c => str_eqb c x) arr.

(** ECMAScript [WhiteSpace] and [LineTerminator] code units: what [\s]
    matches (without the [u] flag) and what [trim] strips. *)
Definition is_space (c : N) : bool :=
  (c =? 9) || (c =? 10) || (c =? 11) || (c =? 12) || (c =? 13) ||
  (c =? 32) || (c =? 160) || (c =? 5760) ||
  ((8192 <=? c) && (c <=? 8202)) ||
  (c =? 8232) || (c =? 8233) || (c =? 8239) || (c =? 8287) ||
  (c =? 12288) || (c =? 65279).

(** [\d] and [\w]. *)
Definition is_digit (c : N) : bool := (48 <=? c) && (c <=? 57).

Definition is_word (c : N) : bool :=
  is_digit c || ((65 <=? c) && (c <=? 90)) || ((97 <=? c) && (c <=? 122)) ||
  (c =? 95).

Fixpoint trim_start (s : jsstring) : jsstring :=
  match s with
  | c :: s' => if is_space c then trim_start s' else s
  | [] => []
  end.

(** [s.trim()] *)
Definition trim (s : jsstring) : jsstring :=
  rev (trim_start (rev (trim_start s))).

(** The runtime's case mappings on ASCII code units, applied unit by unit;
    other code units are kept. *)
Definition ascii_lower_unit (c : N) : N :=
  if (65 <=? c) && (c <=? 90) then c + 32 else c.

Definition ascii_upper_unit (c : N) : N :=
  if (97 <=? c) && (c <=? 122) then c - 32 else c.

Definition ascii_toLowerCase (s : jsstring) : jsstring := map ascii_lower_unit s.
Definition ascii_toUpperCase (s : jsstring) : jsstring := map ascii_upper_unit s.

(** *** Numbers

    A JavaScript number that holds an integer is the [Z] of its value.
    The integers up to 2^53 are all numbers; above, a number has 53
    significant bits. *)

(** The number nearest to the integer [v >= 0], ties to the even
    significand.  A result from 2^1024 on stands for [Infinity], which
    equals no identifier of an entry. *)
Definition to_double (v : Z) : Z :=
  if (v <=? 2 ^ 53)%Z then v
  else
    let e := (Z.log2 v - 52)%Z in
    let q := (v / 2 ^ e)%Z in
    let r := (v mod 2 ^ e)%Z in
    let half := (2 ^ (e - 1))%Z in
    let q' := if (r <? half)%Z then q
              else if (half <? r)%Z then (q + 1)%Z
              else if Z.even q then q else (q + 1)%Z in
    (q' * 2 ^ e)%Z.

(** The integer that a string of decimal digits denotes. *)
Definition decimal_value (ds : jsstring) : Z :=
  fold_left (fun acc c => (acc * 10 + (Z.of_N c - 48))%Z) ds 0%Z.

(** [parseInt(ds)] on a string of decimal digits: the number nearest to
    the integer it denotes. *)
Definition parseInt (ds : jsstring) : Z := to_double (decimal_value ds).

(** The decimal digits of [m >= 0]. *)
Definition decimal (m : Z) : jsstring :=
  lit (DecimalString.NilZero.string_of_uint (N.to_uint (Z.to_N m))).

(** The [s] of [k] digits for which [s * 10^(n-k)] denotes the number [x]
    of [n] digits, [p] being [10^(n-k)]: of the two multiples of [p] around
    [x], the one whose nearest number is [x]; when both are, the closer to
    [x], and the even one when they are as close. *)
Definition digits_for (x p : Z) : option Z :=
  let q := (x / p)%Z in
  let r := (x mod p)%Z in
  match (to_double (q * p) =? x)%Z, (to_double ((q + 1) * p) =? x)%Z with
  | true, true =>
    Some (if (2 * r <? p)%Z then q
          else if (p <? 2 * r)%Z then (q + 1)%Z
          else if Z.even q then q else (q + 1)%Z)
  | true, false => Some q
  | false, true => Some (q + 1)%Z
  | false, false => None
  end.

(** [Number::toString] takes the fewest digits [k] for which there is such
    an [s]: [shortest x n k fuel] tries [k], [k+1], ... for a number [x] of
    [n] digits and returns [s], [k] and the number of digits of
    [s * 10^(n-k)].  Seventeen digits always suffice. *)
Fixpoint shortest (x : Z) (n k : nat) (fuel : nat) : Z * nat * nat :=
  match fuel with
  | O => (x, n, n)
  | S fuel' =>
    match digits_for x (10 ^ Z.of_nat (n - k)) with
    | Some s =>
      if (s =? 10 ^ Z.of_nat k)%Z then ((s / 10)%Z, k, S n) else (s, k, n)
    | None => shortest x n (S k) fuel'
    end
  end.

(** [`${m}`] for a number [m >= 0]: all its digits up to 2^53; above, the
    digits of [s] followed by zeros when the number has at most 21 digits,
    and the exponent form from 10^21 on. *)
Definition nonneg_to_string (m : Z) : jsstring :=
  if (m <=? 2 ^ 53)%Z then decimal m
  else
    let x := to_double m in
    let '(s, k, n) := shortest x (length (decimal x)) 1 17 in
    let ds := decimal s in
    if (n <=? 21)%nat then ds ++ repeat 48 (n - k)
    else
      take 1 ds ++ (match drop 1 ds with [] => [] | rest => 46 :: rest end)
      ++ lit "e+" ++ decimal (Z.of_nat (n - 1)).

(** [`${n}`] for a number [n] that holds an integer. *)
Definition number_to_string (n : Z) : jsstring :=
  if (n <? 0)%Z then 45 :: nonneg_to_string (- n) else nonneg_to_string n.

(** [(x || d)] on a string that may be missing: the empty string is falsy. *)
Definition or_else (x : option jsstring) (d : jsstring) : jsstring :=
  match x with
  | Some (c :: s) => c :: s
  | _ => d
  end.

(** [arr.join(sep)] *)
Fixpoint join (sep : jsstring) (arr : list jsstring) : jsstring :=
  match arr with
  | [] => []
  | [x] => x
  | x :: rest => x ++ sep ++ join sep rest
  end.

(** ** Data model *)

Record WishlistEntry := {
  entry_name : jsstring;
  appid : Z;
  suggester : jsstring
}.

(** An element of a cached search result. *)
Record SearchResult := {
  sr_name : jsstring;
  sr_appid : Z;
  sr_url : jsstring
}.

(** The three module-level variables. *)
Record store := {
  singleList : list WishlistEntry;
  multiList : list WishlistEntry;
  steamCache : gmap jsstring (list SearchResult)
}.

Inductive game_type := Single | Multi | Both | Unknown.

Record Details := {
  d_name : jsstring;
  d_description : jsstring;
  d_price : jsstring;
  d_headerImage : jsstring;
  d_url : jsstring;
  d_categories : list jsstring;
  d_genres : list jsstring
}.

(** An embed as the handlers build and read it; [title] and [url] are
    nullable on a received message. *)
Record Embed := {
  title : option jsstring;
  url : option jsstring;
  description : jsstring;
  fields : list (jsstring * jsstring);
  image : jsstring
}.

(** The replies of the [wishlist] command, by their text. *)
Inductive reply_content :=
| WrongChannel     (* Please use the designated submission channel. *)
| NotFound         (* Game not found on Steam. *)
| NoDetails        (* Could not fetch game details. *)
| UnknownType      (* Could not determine game type. *)
| Duplicate        (* This game is already in the wishlist. *)
| ThumbsUp.

(** What a handler does, in order: its calls to the outside, and a marker
    [EnterVoice] for the branch [if (isMultiGame)] of the completion
    monitor, which has no call of its own when the channel exists. *)
Inductive step :=
| FetchSearch (term : jsstring)
| SaveCache
| Warn
| FetchDetails (id : Z)
| SendEmbed (channel : option jsstring) (e : Embed)
| SaveLists
| Reply (content : reply_content) (ephemeral : bool)
| Respond (choices : list (jsstring * jsstring))
| EnterVoice (capitalizedName : option jsstring)
| CreateVoice (name : jsstring) (parent : option jsstring)
| DeleteMessage.

(** The environment variables the handlers read. *)
Record config := {
  SUBMISSION_CHANNEL_ID : option jsstring;
  WISHLIST_SINGLE_CHANNEL_ID : option jsstring;
  WISHLIST_MULTI_CHANNEL_ID : option jsstring;
  GAME_VOICE_CATEGORY_ID : option jsstring
}.

(** *** The store API's answers *)

Record store_item := { item_name : jsstring; item_id : Z }.

(** The body of a search response.  [Unparsable]: [res.json()] rejects, or
    the body makes the rest of the [try] block throw ([data] is [null], one
    of the first ten items is).  [Parsed items]: [items] is [None] when
    [data.items] is not an array. *)
Inductive search_body :=
| Unparsable
| Parsed (items : option (list store_item)).

Inductive search_fetch :=
| Aborted                                   (* the 1500 ms timer fired *)
| Rejected                                  (* [fetch] rejected *)
| Response (status : N) (body : search_body).

(** The [data] of an [appdetails] record, with its optional members. *)
Record raw_game := {
  game_name : jsstring;
  short_description : option jsstring;
  is_free : bool;
  final_formatted : option jsstring;
  header_image : jsstring;
  categories : option (list jsstring);
  genres : option (list jsstring)
}.

Inductive details_fetch :=
| DetailsThrows                             (* [fetch] or [res.json()] rejected *)
| DetailsJson (game : option raw_game).     (* [json[appid]?.data] *)

(** *** The chat platform's objects *)

Record User := { user_id : jsstring; user_bot : bool }.
Record Role := { role_name : jsstring }.
Record Member := { member_user : User; member_roles : list Role }.

Inductive channel_kind := GuildText | GuildVoice | GuildCategory.
Record Channel := { channel_type : channel_kind; channel_name : jsstring }.

Record Guild := {
  members_fetch : option (list Member);     (* [None]: [members.fetch()] rejects *)
  members_cache : list Member;
  channels_cache : list Channel
}.

(** One entry of [message.reactions.cache], with what [react.users.fetch()]
    resolves to. *)
Record Reaction := { reaction_users : list User }.

Record Message := {
  guild : option Guild;
  reactions : list Reaction;
  embeds : list Embed
}.

(** ** The catalog resolver *)

Definition app_url (id : Z) : jsstring :=
  lit "https://store.steampowered.com/app/" ++ number_to_string id.

(** [res.ok] *)
Definition res_ok (status : N) : bool := (200 <=? status) && (status <=? 299).

Definition to_result (item : store_item) : SearchResult :=
  {| sr_name := item_name item; sr_appid := item_id item;
     sr_url := app_url (item_id item) |}.

(** The case mappings of the JavaScript runtime. *)
Class Runtime := {
  toLowerCase : jsstring -> jsstring;
  toUpperCase : jsstring -> jsstring
}.

Definition ascii_runtime : Runtime :=
  {| toLowerCase := ascii_toLowerCase; toUpperCase := ascii_toUpperCase |}.

Section Bot.
Context {rt : Runtime}.

Definition cleaned (query : jsstring) : jsstring := trim (toLowerCase query).

Definition cacheKey (query : jsstring) : jsstring := lit "search:" ++ cleaned query.

(** [searchSteamGame(query)].  [answer] is what the store API answers if it
    is asked, [save_ok] whether [saveCache()] returns rather than throws.
    The result is the returned array, the cache afterwards and the trace. *)
Definition searchSteamGame (cache : gmap jsstring (list SearchResult))
    (query : jsstring) (answer : search_fetch) (save_ok : bool)
  : list SearchResult * gmap jsstring (list SearchResult) * list step :=
  match cache !! cacheKey query with
  | Some hit => (hit, cache, [])
  | None =>
    let request := FetchSearch (cleaned query) in
    match answer with
    | Aborted | Rejected => ([], cache, [request; Warn])
    | Response status body =>
      if negb (res_ok status) then ([], cache, [request; Warn])
      else
        match body with
        | Unparsable => ([], cache, [request; Warn])
        | Parsed data_items =>
          let items := match data_items with Some a => a | None => [] end in
          let results := map to_result (take 10 items) in
          let cache' := <[cacheKey query := results]> cache in
          if save_ok then (results, cache', [request; SaveCache])
          else ([], cache', [request; SaveCache; Warn])
        end
    end
  end.

(** [fetchSteamDetails(appid)] *)
Definition fetchSteamDetails (id : Z) (answer : details_fetch) : option Details :=
  match answer with
  | DetailsThrows => None
  | DetailsJson None => None
  | DetailsJson (Some game) =>
    Some {| d_name := game_name game;
            d_description := or_else (short_description game) (lit "No description provided.");
            d_price := if is_free game then lit "Free"
                       else or_else (final_formatted game) (lit "Unknown");
            d_headerImage := header_image game;
            d_url := app_url id;
            d_categories := match categories game with Some cs => cs | None => [] end;
            d_genres := match genres game with Some gs => gs | None => [] end |}
  end.

(** ** The classifier *)

Definition multi_tag (c : jsstring) : bool :=
  includes c (lit "multiplayer") || includes c (lit "co-op") ||
  includes c (lit "cross-platform").

Definition getGameType (cats : list jsstring) : game_type :=
  let lower := map toLowerCase cats in
  let isSingle := array_includes lower (lit "single-player") in
  let isMulti := existsb multi_tag lower in
  if isMulti then Multi
  else if isSingle then Single
  else Unknown.

(** ** The submission handler *)

(** [postGameEmbed(channelId, entry)]: [text_based] is
    [channel?.isTextBased()] of the fetched channel, [answer] the second
    details lookup.  The steps are those of a run on which the channel
    fetch resolves, [EmbedBuilder] accepts the values it is given and
    [send] resolves; a run on which one of them throws stops before
    [SendEmbed], or at it. *)
Definition postGameEmbed (channelId : option jsstring) (entry : WishlistEntry)
    (text_based : bool) (answer : details_fetch) : list step :=
  if negb text_based then []
  else
    match fetchSteamDetails (appid entry) answer with
    | None => [FetchDetails (appid entry)]
    | Some details =>
      let embed :=
        {| title := Some (d_name details);
           url := Some (d_url details);
           description := take 300 (d_description details) ++ lit "...";
           fields :=
             [ (lit "Price", d_price details);
               (lit "Genres", or_else (Some (join (lit ", ") (d_genres details))) (lit "N/A"));
               (lit "Tags", or_else (Some (join (lit ", ") (d_categories details))) (lit "N/A")) ];
           image := d_headerImage details |} in
      [FetchDetails (appid entry); SendEmbed channelId embed]
    end.

(** [matches.find(m => m.name.toLowerCase() === gameName.toLowerCase()) || matches[0]] *)
Definition pick_match (gameName : jsstring) (matches : list SearchResult)
  : option SearchResult :=
  match find (fun m => str_eqb (toLowerCase (sr_name m)) (toLowerCase gameName)) matches with
  | Some m => Some m
  | None => head matches
  end.

Definition has_appid (id : Z) (l : list WishlistEntry) : bool :=
  existsb (fun g => (appid g =? id)%Z) l.

(** The duplicate test, as a function of the type. *)
Definition dup (type : game_type) (st : store) (entry : WishlistEntry) : bool :=
  match type with
  | Single | Both => has_appid (appid entry) (singleList st)
  | _ => has_appid (appid entry) (multiList st)
  end.

(** What the outside answers during one interaction: to the search, to
    the write of the cache file, to the detail lookup of the command, to
    the fetch of the display channel, to the detail lookup of the embed,
    and to the first [respond] of an autocomplete request. *)
Record submission_world := {
  search_answer : search_fetch;
  cache_saved : bool;
  details_answer : details_fetch;
  display_text_based : bool;
  embed_details_answer : details_fetch;
  respond_resolves : bool
}.

Record outcome := { out_store : store; out_trace : list step }.

Definition with_cache (st : store) (c : gmap jsstring (list SearchResult)) : store :=
  {| singleList := singleList st; multiList := multiList st; steamCache := c |}.

(** The [wishlist] command: [channel] is [interaction.channel?.id]. *)
Definition wishlist_command (cfg : config) (st : store)
    (channel : option jsstring) (gameName username : jsstring)
    (w : submission_world) : outcome :=
  if negb (bool_decide (channel = SUBMISSION_CHANNEL_ID cfg)) then
    {| out_store := st; out_trace := [Reply WrongChannel true] |}
  else
    let '(rawMatches, cache1, t1) :=
      searchSteamGame (steamCache st) gameName (search_answer w) (cache_saved w) in
    let st1 := with_cache st cache1 in
    match pick_match gameName rawMatches with
    | None => {| out_store := st1; out_trace := t1 ++ [Reply NotFound true] |}
    | Some steamGame =>
      let t2 := t1 ++ [FetchDetails (sr_appid steamGame)] in
      match fetchSteamDetails (sr_appid steamGame) (details_answer w) with
      | None => {| out_store := st1; out_trace := t2 ++ [Reply NoDetails true] |}
      | Some details =>
        let type := getGameType (d_categories details) in
        match type with
        | Unknown => {| out_store := st1; out_trace := t2 ++ [Reply UnknownType true] |}
        | _ =>
          let entry := {| entry_name := sr_name steamGame; appid := sr_appid steamGame;
                          suggester := username |} in
          if dup type st1 entry then
            {| out_store := st1; out_trace := t2 ++ [Reply Duplicate true] |}
          else
            let '(st2, t3) :=
              match type with
              | Single =>
                ({| singleList := singleList st1 ++ [entry]; multiList := multiList st1;
                    steamCache := steamCache st1 |},
                 postGameEmbed (WISHLIST_SINGLE_CHANNEL_ID cfg) entry
                   (display_text_based w) (embed_details_answer w))
              | _ => (st1, [])
              end in
            let '(st3, t4) :=
              match type with
              | Multi =>
                ({| singleList := singleList st2; multiList := multiList st2 ++ [entry];
                    steamCache := steamCache st2 |},
                 postGameEmbed (WISHLIST_MULTI_CHANNEL_ID cfg) entry
                   (display_text_based w) (embed_details_answer w))
              | _ => (st2, [])
              end in
            {| out_store := st3;
               out_trace := t2 ++ t3 ++ t4 ++ [SaveLists; Reply ThumbsUp true] |}
        end
      end
    end.

(** The autocomplete branch of [interactionCreate].  [searchSteamGame]
    catches its own errors, so the only call of the [try] block that can
    fail is [interaction.respond(choices)]; [respond_ok] tells whether the
    platform accepts it.  When it does not, the [catch] block responds
    again, with no choices. *)
Definition autocomplete (st : store) (focused : jsstring)
    (answer : search_fetch) (save_ok respond_ok : bool) : outcome :=
  let '(raw, cache1, t1) := searchSteamGame (steamCache st) focused answer save_ok in
  let choices := map (fun r => (sr_name r, sr_name r)) (take 5 raw) in
  {| out_store := with_cache st cache1;
     out_trace := t1 ++ Respond choices :: (if respond_ok then [] else [Respond []]) |}.

Inductive interaction :=
| Autocomplete (focused : jsstring)
| ChatInputCommand (commandName : jsstring) (channel : option jsstring)
    (game username : jsstring)
| OtherInteraction.

(** The [interactionCreate] handler. *)
Definition interactionCreate (cfg : config) (st : store) (i : interaction)
    (w : submission_world) : outcome :=
  match i with
  | Autocomplete focused =>
    autocomplete st focused (search_answer w) (cache_saved w) (respond_resolves w)
  | ChatInputCommand commandName channel game username =>
    if negb (str_eqb commandName (lit "wishlist")) then
      {| out_store := st; out_trace := [] |}
    else wishlist_command cfg st channel game username w
  | OtherInteraction => {| out_store := st; out_trace := [] |}
  end.

(** ** The completion monitor *)

(** The filter of [totalHumans]. *)
Definition counted_human (m : Member) : bool :=
  negb (user_bot (member_user m)) &&
  negb (existsb (fun role => includes (toLowerCase (role_name role)) (lit "bot"))
          (member_roles m)).

Definition totalHumans (members : list Member) : nat :=
  length (List.filter counted_human members).

(** [users.forEach(u => { if (!u.bot) uniqueReactors.add(u.id) })] *)
Definition add_reactors (acc : gset jsstring) (users : list User) : gset jsstring :=
  fold_left (fun s u => if user_bot u then s else s ∪ {[user_id u]}) users acc.

(** The loop over [reaction.message.reactions.cache]. *)
Definition uniqueReactors (rs : list Reaction) : gset jsstring :=
  fold_left (fun s react => add_reactors s (reaction_users react)) rs ∅.

(** The capture of [/\/app\/(\d+)/]: the digits after the leftmost
    [/app/] that is followed by a digit. *)
Fixpoint leading_digits (s : jsstring) : jsstring :=
  match s with
  | c :: s' => if is_digit c then c :: leading_digits s' else []
  | [] => []
  end.

Fixpoint match_app (s : jsstring) : option jsstring :=
  match s with
  | [] => None
  | _ :: rest =>
    if starts_with (lit "/app/") s then
      match leading_digits (drop 5 s) with
      | [] => match_app rest
      | ds => Some ds
      end
    else match_app rest
  end.

(** [embed?.url?.match(...)] followed by [parseInt(appidMatch[1])]. *)
Definition embed_appid (embed : option Embed) : option Z :=
  match embed with
  | Some e =>
    match url e with
    | Some u => option_map parseInt (match_app u)
    | None => None
    end
  | None => None
  end.

(** [s.replace(/\w\S*/g, f)].  [cur] is the match in progress: it starts at
    a [\w] unit and runs up to the next [\s] unit or the end. *)
Fixpoint replace_words (f : jsstring -> jsstring) (cur : option jsstring)
    (s : jsstring) : jsstring :=
  match s with
  | [] => match cur with Some w => f w | None => [] end
  | c :: s' =>
    match cur with
    | Some w =>
      if is_space c then f w ++ c :: replace_words f None s'
      else replace_words f (Some (w ++ [c])) s'
    | None =>
      if is_word c then replace_words f (Some [c]) s'
      else c :: replace_words f None s'
    end
  end.

(** [(w) => w.charAt(0).toUpperCase() + w.slice(1).toLowerCase()] *)
Definition capitalize (w : jsstring) : jsstring :=
  toUpperCase (take 1 w) ++ toLowerCase (drop 1 w).

(** [embed.title?.replace(...).substring(0, 90)] *)
Definition capitalizedName (e : Embed) : option jsstring :=
  option_map (fun t => take 90 (replace_words capitalize None t)) (title e).

Definition remove_appid (id : Z) (l : list WishlistEntry) : list WishlistEntry :=
  List.filter (fun g => negb (appid g =? id)%Z) l.

(** The two [filter] assignments of the quorum branch. *)
Definition removeByAppid (id : Z) (st : store) : store :=
  {| singleList := remove_appid id (singleList st);
     multiList := remove_appid id (multiList st);
     steamCache := steamCache st |}.

(** [guild.channels.cache.find(c => c.type === GuildVoice && c.name === capitalizedName?.toLowerCase())] *)
Definition existing_voice (channels : list Channel) (cap : option jsstring)
  : option Channel :=
  find (fun c =>
          match channel_type c with GuildVoice => true | _ => false end &&
          bool_decide (Some (channel_name c) = option_map toLowerCase cap))
       channels.

(** The body of [if (isMultiGame)]; [create_ok] is whether
    [guild.channels.create] resolves. *)
Definition voice_channel (cfg : config) (g : Guild) (e : Embed) (create_ok : bool)
  : list step :=
  let cap := capitalizedName e in
  match existing_voice (channels_cache g) cap with
  | Some _ => [EnterVoice cap]
  | None =>
    [EnterVoice cap;
     CreateVoice (or_else cap (lit "Game Voice")) (GAME_VOICE_CATEGORY_ID cfg)]
    ++ (if create_ok then [] else [Warn])
  end.

(** The [try]/[catch] around [guild.members.fetch()]: the fetched list, or
    the cached one and a warning. *)
Definition resolve_members (g : Guild) : list Member * list step :=
  match members_fetch g with
  | Some ms => (ms, [])
  | None => (members_cache g, [Warn])
  end.

(** The [messageReactionAdd] handler, for a reaction of [user] on [msg]. *)
Definition messageReactionAdd (cfg : config) (st : store) (msg : Message)
    (user : User) (create_ok : bool) : outcome :=
  match guild msg with
  | None => {| out_store := st; out_trace := [] |}
  | Some g =>
    if user_bot user then {| out_store := st; out_trace := [] |}
    else
      let '(members, t0) := resolve_members g in
      if (totalHumans members <=? size (uniqueReactors (reactions msg)))%nat then
        let embed := head (embeds msg) in
        match embed, embed_appid embed with
        | Some e, Some id =>
          let isMultiGame := has_appid id (multiList st) in
          {| out_store := removeByAppid id st;
             out_trace := t0 ++ [SaveLists]
                          ++ (if isMultiGame then voice_channel cfg g e create_ok else [])
                          ++ [DeleteMessage] |}
        | _, _ => {| out_store := st; out_trace := t0 ++ [DeleteMessage] |}
        end
      else {| out_store := st; out_trace := t0 |}
  end.

(** ** What the specification's words mean *)

(** [needle] occurs in [s] as a substring. *)
Definition substring_of (needle s : jsstring) : Prop :=
  ∃ pre post, s = pre ++ needle ++ post.

(** A tag that indicates multiplayer: lower-cased, it contains one of the
    three markers. *)
Definition multiplayer_indicating (c : jsstring) : Prop :=
  substring_of (lit "multiplayer") (toLowerCase c) ∨
  substring_of (lit "co-op") (toLowerCase c) ∨
  substring_of (lit "cross-platform") (toLowerCase c).

(** A member that counts as a human: not a bot account and without a role
    whose lower-cased name contains "bot". *)
Definition eligible_human (m : Member) : Prop :=
  user_bot (member_user m) = false ∧
  ¬ ∃ role, role ∈ member_roles m ∧
            substring_of (lit "bot") (toLowerCase (role_name role)).

(** [counts P l n]: [n] is the number of elements of [l] that satisfy [P]. *)
Inductive counts {A} (P : A → Prop) : list A → nat → Prop :=
| counts_nil : counts P [] 0
| counts_in x l n : P x → counts P l n → counts P (x :: l) (S n)
| counts_out x l n : ¬ P x → counts P l n → counts P (x :: l) n.

(** The identifiers of the non-bot users of one reaction, as a set. *)
Definition human_reactors (react : Reaction) : gset jsstring :=
  list_to_set (map user_id (List.filter (fun u => negb (user_bot u)) (reaction_users react))).

(** The union of these sets over every reaction of the message. *)
Definition reactors_union (rs : list Reaction) : gset jsstring :=
  ⋃ (map human_reactors rs).

(** An entry with identifier [id] is present in the collection [l]. *)
Definition present (id : Z) (l : list WishlistEntry) : Prop :=
  ∃ e, e ∈ l ∧ appid e = id.

(** The external lookup succeeds with [results]: a 2xx response whose body
    parses, [results] being its first ten items (none when [items] is not
    an array). *)
Definition lookup_succeeds_with (answer : search_fetch) (results : list SearchResult) : Prop :=
  ∃ status items,
    answer = Response status (Parsed items) ∧ res_ok status = true ∧
    results = map to_result (take 10 (default [] items)).

(** The external lookup fails: the timer aborts it, the transport fails,
    the status is not 2xx, or the body does not parse. *)
Definition lookup_fails (answer : search_fetch) : Prop :=
  match answer with
  | Aborted | Rejected => True
  | Response status body => res_ok status = false ∨ body = Unparsable
  end.

(** The cache after a sequence of later searches, each with its query, the
    API's answer and whether the cache file could be written. *)
Definition later_searches (cache : gmap jsstring (list SearchResult))
    (calls : list (jsstring * search_fetch * bool)) : gmap jsstring (list SearchResult) :=
  fold_left (fun c call => (searchSteamGame c call.1.1 call.1.2 call.2).1.2) calls cache.

(** The candidate the [wishlist] command chooses for [gameName]. *)
Definition chosen (st : store) (gameName : jsstring) (w : submission_world)
  : option SearchResult :=
  pick_match gameName
    (searchSteamGame (steamCache st) gameName (search_answer w) (cache_saved w)).1.1.

(** The last step of a handler; for the [wishlist] command, its reply. *)
Definition final_step (out : outcome) : option step := last (out_trace out).

(** The submission fails at one of its steps, with the reply of that step. *)
Inductive fails_at (cfg : config) (st : store) (channel : option jsstring)
    (gameName : jsstring) (w : submission_world) : reply_content → Prop :=
| fail_wrong_channel :
    channel ≠ SUBMISSION_CHANNEL_ID cfg →
    fails_at cfg st channel gameName w WrongChannel
| fail_no_candidate :
    channel = SUBMISSION_CHANNEL_ID cfg →
    chosen st gameName w = None →
    fails_at cfg st channel gameName w NotFound
| fail_details_none g :
    channel = SUBMISSION_CHANNEL_ID cfg →
    chosen st gameName w = Some g →
    fetchSteamDetails (sr_appid g) (details_answer w) = None →
    fails_at cfg st channel gameName w NoDetails
| fail_details_transport g :
    channel = SUBMISSION_CHANNEL_ID cfg →
    chosen st gameName w = Some g →
    details_answer w = DetailsThrows →
    fails_at cfg st channel gameName w NoDetails
| fail_unknown g d :
    channel = SUBMISSION_CHANNEL_ID cfg →
    chosen st gameName w = Some g →
    fetchSteamDetails (sr_appid g) (details_answer w) = Some d →
    getGameType (d_categories d) = Unknown →
    fails_at cfg st channel gameName w UnknownType
| fail_duplicate_single g d :
    channel = SUBMISSION_CHANNEL_ID cfg →
    chosen st gameName w = Some g →
    fetchSteamDetails (sr_appid g) (details_answer w) = Some d →
    getGameType (d_categories d) = Single →
    present (sr_appid g) (singleList st) →
    fails_at cfg st channel gameName w Duplicate
| fail_duplicate_multi g d :
    channel = SUBMISSION_CHANNEL_ID cfg →
    chosen st gameName w = Some g →
    fetchSteamDetails (sr_appid g) (details_answer w) = Some d →
    getGameType (d_categories d) = Multi →
    present (sr_appid g) (multiList st) →
    fails_at cfg st channel gameName w Duplicate.

(** ** Sequences of events *)

(** One event that the client dispatches, with what the outside answers
    while its handler runs. *)
Inductive event :=
| InteractionCreate (i : interaction) (w : submission_world)
| MessageReactionAdd (msg : Message) (user : User) (create_ok : bool).

Definition handle (cfg : config) (st : store) (ev : event) : outcome :=
  match ev with
  | InteractionCreate i w => interactionCreate cfg st i w
  | MessageReactionAdd msg user create_ok => messageReactionAdd cfg st msg user create_ok
  end.

(** The store after the handlers of [evs] have run one after the other. *)
Definition run (cfg : config) (st : store) (evs : list event) : store :=
  fold_left (fun s ev => out_store (handle cfg s ev)) evs st.

(** No identifier occurs twice in the collection. *)
Definition unique_ids (l : list WishlistEntry) : Prop := NoDup (map appid l).

(** The link of a search result is the store page of its identifier. *)
Definition linked (r : SearchResult) : Prop := sr_url r = app_url (sr_appid r).

(** Every cached result list has at most ten elements, each with its link. *)
Definition cache_ok (cache : gmap jsstring (list SearchResult)) : Prop :=
  ∀ k rs, cache !! k = Some rs → (length rs ≤ 10)%nat ∧ Forall linked rs.

End Bot.

(** ** The earlier revision of the resolver and of the duplicate test

    [src/index.ts] keeps one result per query in the cache, does not trim
    the query and has no [try]/[catch] around the lookup: its
    [searchSteamGame] is modelled on the runs on which [fetch] and
    [res.json()] return, [items] being [json.items] ([None] when absent). *)
Module Legacy.
Section Legacy.
Context {rt : Runtime}.

Definition cacheKey (query : jsstring) : jsstring := lit "search:" ++ toLowerCase query.

(** [json.items.find(item => item.name.toLowerCase() === query.toLowerCase()) || json.items[0]] *)
Definition top (query : jsstring) (items : list store_item) : option store_item :=
  match find (fun item => str_eqb (toLowerCase (item_name item)) (toLowerCase query)) items with
  | Some item => Some item
  | None => head items
  end.

Definition searchSteamGame (cache : gmap jsstring SearchResult) (query : jsstring)
    (items : option (list store_item))
  : option SearchResult * gmap jsstring SearchResult * list step :=
  match cache !! cacheKey query with
  | Some hit => (Some hit, cache, [])
  | None =>
    match items with
    | Some (i :: rest) =>
      match top query (i :: rest) with
      | Some t =>
        let result := to_result t in
        (Some result, <[cacheKey query := result]> cache, [FetchSearch query; SaveCache])
      | None => (None, cache, [FetchSearch query])
      end
    | _ => (None, cache, [FetchSearch query])
    end
  end.

(** [(type === 'single') && singleList.some(...) || (type === 'multi') && multiList.some(...)] *)
Definition isDuplicate (type : game_type) (st : store) (entry : WishlistEntry) : bool :=
  (match type with Single => true | _ => false end && has_appid (appid entry) (singleList st))
  || (match type with Multi => true | _ => false end && has_appid (appid entry) (multiList st)).

End Legacy.
End Legacy.

(** ** Concrete inputs

    The inputs on which the handlers are evaluated further down, with the
    case mappings of [ascii_runtime]. *)

Definition cfg0 : config :=
  {| SUBMISSION_CHANNEL_ID := Some (lit "1001");
     WISHLIST_SINGLE_CHANNEL_ID := Some (lit "1002");
     WISHLIST_MULTI_CHANNEL_ID := Some (lit "1003");
     GAME_VOICE_CATEGORY_ID := Some (lit "1004") |}.

Definition empty_store : store :=
  {| singleList := []; multiList := []; steamCache := ∅ |}.

(** *** A submission of Portal 2 *)

Definition portal2_item : store_item :=
  {| item_name := lit "Portal 2"; item_id := 620 |}.

Definition portal2_game : raw_game :=
  {| game_name := lit "Portal 2";
     short_description := Some (lit "The Perpetual Testing Initiative.");
     is_free := false;
     final_formatted := Some (lit "$9.99");
     header_image := lit "https://cdn.example/620/header.jpg";
     categories := Some [lit "Single-player"; lit "Co-op"; lit "Steam Achievements"];
     genres := Some [lit "Action"; lit "Adventure"] |}.

(** What [fetchSteamDetails] makes of [portal2_game]. *)
Definition portal2_details : Details :=
  {| d_name := lit "Portal 2";
     d_description := lit "The Perpetual Testing Initiative.";
     d_price := lit "$9.99";
     d_headerImage := lit "https://cdn.example/620/header.jpg";
     d_url := app_url 620;
     d_categories := [lit "Single-player"; lit "Co-op"; lit "Steam Achievements"];
     d_genres := [lit "Action"; lit "Adventure"] |}.

(** The store API finds Portal 2 and serves its details. *)
Definition portal2_world : submission_world :=
  {| search_answer := Response 200 (Parsed (Some [portal2_item]));
     cache_saved := true;
     details_answer := DetailsJson (Some portal2_game);
     display_text_based := true;
     embed_details_answer := DetailsJson (Some portal2_game);
     respond_resolves := true |}.

(** The store API finds Portal 2, and the detail lookup throws. *)
Definition details_down : submission_world :=
  {| search_answer := Response 200 (Parsed (Some [portal2_item]));
     cache_saved := true;
     details_answer := DetailsThrows;
     display_text_based := true;
     embed_details_answer := DetailsThrows;
     respond_resolves := true |}.

Definition portal2_entry (who : jsstring) : WishlistEntry :=
  {| entry_name := lit "Portal 2"; appid := 620; suggester := who |}.

(** Portal 2 filed, for whatever reason, under single-player. *)
Definition portal2_in_single : store :=
  {| singleList := [portal2_entry (lit "bob")]; multiList := []; steamCache := ∅ |}.

(** A cache that holds the Portal 2 search. *)
Definition portal2_cache : gmap jsstring (list SearchResult) :=
  {[ lit "search:portal 2" := [to_result portal2_item] ]}.

(** alice submits "portal 2" in the submission channel. *)
Definition submit_portal2 (st : store) (w : submission_world) : outcome :=
  wishlist_command (rt := ascii_runtime) cfg0 st (Some (lit "1001")) (lit "portal 2")
    (lit "alice") w.

(** The first search for a title the store API does not know. *)
Definition first_search : list SearchResult * gmap jsstring (list SearchResult) * list step :=
  searchSteamGame (rt := ascii_runtime) ∅ (lit "  No Such Game ")
    (Response 200 (Parsed (Some []))) true.

(** *** A completed announcement *)

Definition reactor (id : string) : User := {| user_id := lit id; user_bot := false |}.
Definition bot_user (id : string) : User := {| user_id := lit id; user_bot := true |}.

Definition member (u : User) (role_names : list jsstring) : Member :=
  {| member_user := u;
     member_roles := map (fun n => {| role_name := n |}) role_names |}.

(** Five members that count, a bot account, and a person holding the role
    "Music Bots". *)
Definition server_members : list Member :=
  [ member (reactor "1") [lit "@everyone"];
    member (reactor "2") [lit "@everyone"; lit "Mods"];
    member (reactor "3") [lit "@everyone"];
    member (reactor "4") [lit "@everyone"];
    member (reactor "5") [lit "@everyone"];
    member (bot_user "90") [lit "@everyone"];
    member (reactor "91") [lit "@everyone"; lit "Music Bots"] ].

Definition drg_embed : Embed :=
  {| title := Some (lit "deep rock galactic");
     url := Some (app_url 548430);
     description := lit "Rock and stone...";
     fields := [];
     image := lit "https://cdn.example/548430/header.jpg" |}.

Definition drg_entry : WishlistEntry :=
  {| entry_name := lit "Deep Rock Galactic"; appid := 548430; suggester := lit "alice" |}.

Definition drg_store : store :=
  {| singleList := [portal2_entry (lit "bob")]; multiList := [drg_entry];
     steamCache := {[ lit "search:deep rock" := [] ]} |}.

Definition voice (name : string) : Channel :=
  {| channel_type := GuildVoice; channel_name := lit name |}.

Definition server (channels : list Channel) : Guild :=
  {| members_fetch := Some server_members; members_cache := [];
     channels_cache := channels |}.

(** A guild whose members are a bot account and a holder of a bot role. *)
Definition bots_only : Guild :=
  {| members_fetch := Some [ member (bot_user "90") [lit "@everyone"];
                             member (reactor "91") [lit "@everyone"; lit "Music Bots"] ];
     members_cache := [];
     channels_cache := [] |}.

Definition announcement (g : Guild) (rs : list Reaction) : Message :=
  {| guild := Some g; reactions := rs; embeds := [drg_embed] |}.

(** Two reaction types; four distinct non-bot users, one of them under
    both, and a bot. *)
Definition four_reactors : list Reaction :=
  [ {| reaction_users := [reactor "1"; reactor "2"; reactor "3"; bot_user "90"] |};
    {| reaction_users := [reactor "3"; reactor "4"] |} ].

Definition five_reactors : list Reaction :=
  [ {| reaction_users := [reactor "1"; reactor "2"; reactor "3"; bot_user "90"] |};
    {| reaction_users := [reactor "3"; reactor "4"; reactor "5"] |} ].

(** A reaction of user 4 on the announcement, in the guild [g]. *)
Definition react (g : Guild) (rs : list Reaction) : outcome :=
  messageReactionAdd (rt := ascii_runtime) cfg0 drg_store (announcement g rs)
    (reactor "4") true.

(** The embed that [postGameEmbed] builds from [portal2_details]. *)
Definition portal2_embed : Embed :=
  {| title := Some (lit "Portal 2");
     url := Some (app_url 620);
     description := lit "The Perpetual Testing Initiative....";
     fields := [ (lit "Price", lit "$9.99");
                 (lit "Genres", lit "Action, Adventure");
                 (lit "Tags", lit "Single-player, Co-op, Steam Achievements") ];
     image := lit "https://cdn.example/620/header.jpg" |}.

(** The announcement of Portal 2 with the reactions of five users. *)
Definition portal2_announcement : Message :=
  {| guild := Some (server []); reactions := five_reactors; embeds := [portal2_embed] |}.

(** An embed whose link was written for the identifier -5. *)
Definition negative_embed : Embed :=
  {| title := Some (lit "Broken"); url := Some (app_url (-5)); description := [];
     fields := []; image := [] |}.

(** alice submits Portal 2, then the announcement of Deep Rock Galactic is
    completed. *)
Definition session : list event :=
  [ InteractionCreate
      (ChatInputCommand (lit "wishlist") (Some (lit "1001")) (lit "portal 2") (lit "alice"))
      portal2_world;
    MessageReactionAdd (announcement (server []) five_reactors) (reactor "4") true ].

(** The five reactors and a sixth user under a third reaction. *)
Definition six_reactors : list Reaction :=
  five_reactors ++ [ {| reaction_users := [reactor "6"; bot_user "90"] |} ].

(** * Properties *)

Section Properties.
Context {rt : Runtime}.

(** ** Lemmas on strings *)

Lemma starts_with_spec (p s : jsstring) :
  starts_with p s = true ↔ ∃ post, s = p ++ post.
Proof.
  revert s. induction p as [|a p IH]; intros s; simpl.
  - split; [eauto | done].
  - destruct s as [|b s].
    + split; [done | intros [post H]; discriminate].
    + rewrite andb_true_iff, N.eqb_eq, IH. split.
      * intros [-> [post ->]]. eauto.
      * intros [post H]. injection H as -> ->. eauto.
Qed.

Lemma includes_spec (s needle : jsstring) :
  includes s needle = true ↔ substring_of needle s.
Proof.
  unfold substring_of. induction s as [|c s IH]; simpl.
  - rewrite orb_false_r, starts_with_spec. split.
    + intros [post H]. exists [], post. done.
    + intros [pre [post H]]. destruct pre; [eauto | discriminate].
  - rewrite orb_true_iff, starts_with_spec, IH. split.
    + intros [[post H] | [pre [post H]]].
      * exists [], post. done.
      * exists (c :: pre), post. by rewrite H.
    + intros [pre [post H]]. destruct pre as [|c' pre].
      * left. eauto.
      * right. injection H as _ H. eauto.
Qed.

Lemma array_includes_spec (arr : list jsstring) (x : jsstring) :
  array_includes arr x = true ↔ x ∈ arr.
Proof.
  unfold array_includes, str_eqb. rewrite existsb_exists. split.
  - intros [c [Hin Hc]]. apply bool_decide_eq_true in Hc. subst.
    by apply list_elem_of_In.
  - intros Hin. exists x. split; [by apply list_elem_of_In |].
    by apply bool_decide_eq_true.
Qed.

Lemma multi_tag_spec (c : jsstring) :
  multi_tag (toLowerCase c) = true ↔ multiplayer_indicating c.
Proof.
  unfold multi_tag, multiplayer_indicating.
  rewrite !orb_true_iff, !includes_spec. tauto.
Qed.

Lemma isMulti_spec (cats : list jsstring) :
  existsb multi_tag (map toLowerCase cats) = true ↔
  ∃ c, c ∈ cats ∧ multiplayer_indicating c.
Proof.
  rewrite existsb_exists. split.
  - intros [c' [Hin Hc]]. apply in_map_iff in Hin as [c [<- Hin]].
    exists c. split; [by apply list_elem_of_In | by apply multi_tag_spec].
  - intros [c [Hin Hc]]. exists (toLowerCase c). split.
    + apply in_map. by apply list_elem_of_In.
    + by apply multi_tag_spec.
Qed.

(** ** The classifier *)

(** C2: [getGameType] returns [Multi] exactly when some tag indicates
    multiplayer (whether or not "single-player" is present), [Single]
    exactly when none does and the lower-cased tags contain
    "single-player" as an element, [Unknown] exactly when neither holds;
    it never returns [Both]. *)
Theorem getGameType_precedence (cats : list jsstring) :
  (getGameType cats = Multi ↔ ∃ c, c ∈ cats ∧ multiplayer_indicating c) ∧
  (getGameType cats = Single ↔
     (¬ ∃ c, c ∈ cats ∧ multiplayer_indicating c) ∧
     lit "single-player" ∈ map toLowerCase cats) ∧
  (getGameType cats = Unknown ↔
     (¬ ∃ c, c ∈ cats ∧ multiplayer_indicating c) ∧
     lit "single-player" ∉ map toLowerCase cats) ∧
  getGameType cats ≠ Both.
Proof.
  unfold getGameType.
  rewrite <- isMulti_spec, <- array_includes_spec.
  destruct (existsb multi_tag (map toLowerCase cats));
    destruct (array_includes (map toLowerCase cats) (lit "single-player"));
    repeat split; try done; try (intros [? ?]; done); try (intros; exfalso; naive_solver).
Qed.

(** ** The wishlist store *)

Lemma has_appid_spec (id : Z) (l : list WishlistEntry) :
  has_appid id l = true ↔ present id l.
Proof.
  unfold has_appid, present. rewrite existsb_exists. split.
  - intros [e [Hin He]]. exists e. split; [by apply list_elem_of_In | lia].
  - intros [e [Hin He]]. exists e. split; [by apply list_elem_of_In | lia].
Qed.

Lemma remove_appid_absent (id : Z) (l : list WishlistEntry) :
  ¬ present id (remove_appid id l).
Proof.
  intros [e [Hin He]]. apply list_elem_of_In, filter_In in Hin as [_ Hne].
  apply negb_true_iff in Hne. lia.
Qed.

Lemma remove_appid_others (id : Z) (l : list WishlistEntry) :
  filter (λ e, appid e ≠ id) (remove_appid id l) = filter (λ e, appid e ≠ id) l.
Proof.
  induction l as [|e l IH]; [done |]. simpl.
  destruct (Z.eqb_spec (appid e) id) as [Heq | Hne]; simpl.
  - rewrite filter_cons_False by (intros H; by apply H). done.
  - rewrite !filter_cons_True by done. by rewrite IH.
Qed.

Lemma remove_appid_noop (id : Z) (l : list WishlistEntry) :
  ¬ present id l → remove_appid id l = l.
Proof.
  induction l as [|e l IH]; intros Habs; [done |]. simpl.
  destruct (Z.eqb_spec (appid e) id) as [Heq | Hne]; simpl.
  - exfalso. apply Habs. exists e. split; [apply list_elem_of_here | done].
  - f_equal. apply IH. intros [e' [Hin He']]. apply Habs.
    exists e'. split; [by apply list_elem_of_further | done].
Qed.

Lemma remove_appid_idem (id : Z) (l : list WishlistEntry) :
  remove_appid id (remove_appid id l) = remove_appid id l.
Proof. apply remove_appid_noop, remove_appid_absent. Qed.

(** C4: the removal leaves no entry with identifier [id] in either
    collection, keeps the other entries of each collection as they were
    and in their order, gives the same collections when applied twice as
    when applied once, and changes nothing when [id] is absent. *)
Theorem removeByAppid_dual_idempotent (id : Z) (st : store) :
  (¬ present id (singleList (removeByAppid id st)) ∧
   ¬ present id (multiList (removeByAppid id st))) ∧
  (filter (λ e, appid e ≠ id) (singleList (removeByAppid id st))
     = filter (λ e, appid e ≠ id) (singleList st) ∧
   filter (λ e, appid e ≠ id) (multiList (removeByAppid id st))
     = filter (λ e, appid e ≠ id) (multiList st)) ∧
  removeByAppid id (removeByAppid id st) = removeByAppid id st ∧
  (¬ present id (singleList st) → ¬ present id (multiList st) →
   removeByAppid id st = st).
Proof.
  unfold removeByAppid; simpl. repeat split.
  - apply remove_appid_absent.
  - apply remove_appid_absent.
  - apply remove_appid_others.
  - apply remove_appid_others.
  - by rewrite !remove_appid_idem.
  - intros Hs Hm. rewrite !remove_appid_noop by done. by destruct st.
Qed.

(** ** The catalog resolver *)

Lemma search_hit (cache : gmap jsstring (list SearchResult)) q answer save_ok hit :
  cache !! cacheKey q = Some hit →
  searchSteamGame cache q answer save_ok = (hit, cache, []).
Proof. intros H. unfold searchSteamGame. by rewrite H. Qed.

Lemma search_keeps_entries (cache : gmap jsstring (list SearchResult)) q answer save_ok k v :
  cache !! k = Some v →
  (searchSteamGame cache q answer save_ok).1.2 !! k = Some v.
Proof.
  intros Hk. unfold searchSteamGame.
  destruct (cache !! cacheKey q) as [hit|] eqn:Hq; [done |].
  assert (cacheKey q ≠ k) by congruence.
  destruct answer as [| |status [|items]]; try done;
    destruct (res_ok status); try done.
  destruct save_ok; cbn [negb fst snd]; by rewrite lookup_insert_ne.
Qed.

Lemma later_searches_keep_entries calls :
  ∀ (cache : gmap jsstring (list SearchResult)) k v,
    cache !! k = Some v → later_searches cache calls !! k = Some v.
Proof.
  unfold later_searches.
  induction calls as [|call calls IH]; intros cache k v Hk; simpl; [done |].
  apply IH. by apply search_keeps_entries.
Qed.

(** C6: a search that misses the cache and whose lookup succeeds with no
    result returns the empty array and stores it under the key of the
    lower-cased, trimmed query; whatever searches follow, a search whose
    query has the same normal form returns the empty array, leaves the
    cache as it is and issues no request. *)
Theorem empty_result_is_cached (cache : gmap jsstring (list SearchResult))
    (q : jsstring) (answer : search_fetch) (save_ok : bool) :
  cache !! cacheKey q = None →
  lookup_succeeds_with answer [] →
  (searchSteamGame cache q answer save_ok).1.1 = [] ∧
  (searchSteamGame cache q answer save_ok).1.2 !! cacheKey q = Some [] ∧
  ∀ calls q' answer' save_ok',
    cleaned q' = cleaned q →
    let cache' := later_searches (searchSteamGame cache q answer save_ok).1.2 calls in
    searchSteamGame cache' q' answer' save_ok' = ([], cache', []).
Proof.
  intros Hmiss (status & items & -> & Hok & Hres).
  assert (Hstored :
    (searchSteamGame cache q (Response status (Parsed items)) save_ok).1.2 !! cacheKey q
      = Some []).
  { unfold searchSteamGame. rewrite Hmiss, Hok. cbn [negb].
    change (match items with Some a => a | None => [] end) with (default [] items).
    rewrite <- Hres. destruct save_ok; cbn [fst snd]; by rewrite lookup_insert_eq. }
  split; [| split; [exact Hstored |]].
  - unfold searchSteamGame. rewrite Hmiss, Hok. cbn [negb].
    change (match items with Some a => a | None => [] end) with (default [] items).
    rewrite <- Hres. by destruct save_ok.
  - intros calls q' answer' save_ok' Hnorm cache'.
    apply search_hit. unfold cacheKey. rewrite Hnorm.
    by apply later_searches_keep_entries.
Qed.

(** C7: a search that misses the cache and whose lookup fails returns the
    empty array and leaves the cache as it was; it has issued the request
    and logged a warning. *)
Theorem failed_lookup_is_not_cached (cache : gmap jsstring (list SearchResult))
    (q : jsstring) (answer : search_fetch) (save_ok : bool) :
  cache !! cacheKey q = None →
  lookup_fails answer →
  searchSteamGame cache q answer save_ok = ([], cache, [FetchSearch (cleaned q); Warn]).
Proof.
  intros Hmiss Hfail. unfold searchSteamGame. rewrite Hmiss.
  destruct answer as [| |status body]; simpl in *; try done.
  destruct Hfail as [-> | ->]; simpl; [done |].
  by destruct (res_ok status).
Qed.

(** ** The submission handler *)

(** The command on a submission that reaches the duplicate test. *)
Lemma wishlist_command_classified cfg st channel gameName username w g d :
  channel = SUBMISSION_CHANNEL_ID cfg →
  chosen st gameName w = Some g →
  fetchSteamDetails (sr_appid g) (details_answer w) = Some d →
  getGameType (d_categories d) ≠ Unknown →
  let entry := {| entry_name := sr_name g; appid := sr_appid g; suggester := username |} in
  let out := wishlist_command cfg st channel gameName username w in
  if dup (getGameType (d_categories d)) st entry
  then final_step out = Some (Reply Duplicate true) ∧
       singleList (out_store out) = singleList st ∧
       multiList (out_store out) = multiList st ∧
       steamCache (out_store out)
         = (searchSteamGame (steamCache st) gameName (search_answer w) (cache_saved w)).1.2
  else final_step out = Some (Reply ThumbsUp true).
Proof.
  intros Hch Hg Hd Hty entry out. subst out entry.
  unfold final_step, wishlist_command, chosen in *.
  rewrite bool_decide_eq_true_2 by done. cbn [negb].
  destruct (searchSteamGame _ _ _ _) as [[r c1] t1]. cbn [fst snd] in *.
  rewrite Hg, Hd.
  destruct (getGameType (d_categories d)) eqn:Ety; try done;
    unfold dup, with_cache; cbn [singleList multiList steamCache appid];
    match goal with |- context [has_appid ?i ?l] => destruct (has_appid i l) end;
    cbn [out_trace out_store singleList multiList steamCache];
    by rewrite !last_app.
Qed.

(** The command on a submission that stops before the duplicate test. *)
Lemma wishlist_command_stops_early cfg st channel gameName username w :
  channel = SUBMISSION_CHANNEL_ID cfg →
  let out := wishlist_command cfg st channel gameName username w in
  let stopped c :=
    final_step out = Some (Reply c true) ∧
    singleList (out_store out) = singleList st ∧
    multiList (out_store out) = multiList st ∧
    steamCache (out_store out)
      = (searchSteamGame (steamCache st) gameName (search_answer w) (cache_saved w)).1.2 in
  match chosen st gameName w with
  | None => stopped NotFound
  | Some g =>
    match fetchSteamDetails (sr_appid g) (details_answer w) with
    | None => stopped NoDetails
    | Some d => getGameType (d_categories d) = Unknown → stopped UnknownType
    end
  end.
Proof.
  intros Hch out stopped. subst out stopped.
  unfold final_step, wishlist_command, chosen.
  rewrite bool_decide_eq_true_2 by done. cbn [negb].
  destruct (searchSteamGame _ _ _ _) as [[r c1] t1]. cbn [fst snd].
  destruct (pick_match gameName r) as [g|]; cbn [out_trace out_store].
  - destruct (fetchSteamDetails _ _) as [d|]; cbn [out_trace out_store].
    + intros ->. cbn [out_trace out_store]. by rewrite last_snoc.
    + by rewrite last_snoc.
  - by rewrite last_snoc.
Qed.

Lemma getGameType_not_both (cats : list jsstring) : getGameType cats ≠ Both.
Proof.
  unfold getGameType. destruct (existsb _ _); [done |].
  by destruct (array_includes _ _).
Qed.

(** Every submission fails at one of the steps of [fails_at] or is
    acknowledged. *)
Lemma wishlist_command_fails_or_acknowledges cfg st channel gameName username w :
  (∃ c, fails_at cfg st channel gameName w c) ∨
  final_step (wishlist_command cfg st channel gameName username w)
    = Some (Reply ThumbsUp true).
Proof.
  destruct (decide (channel = SUBMISSION_CHANNEL_ID cfg)) as [Hch | Hch];
    [| left; eexists; by apply fail_wrong_channel].
  destruct (chosen st gameName w) as [g|] eqn:Hg;
    [| left; eexists; by apply fail_no_candidate].
  destruct (fetchSteamDetails (sr_appid g) (details_answer w)) as [d|] eqn:Hd;
    [| left; eexists; by eapply fail_details_none].
  pose proof (wishlist_command_classified cfg st channel gameName username w g d
                Hch Hg Hd) as H.
  cbv zeta in H.
  destruct (getGameType (d_categories d)) eqn:Hty.
  - cbn [dup appid] in H.
    destruct (has_appid (sr_appid g) (singleList st)) eqn:Hp.
    + left. eexists. eapply fail_duplicate_single; eauto. by apply has_appid_spec.
    + right. by apply H.
  - cbn [dup appid] in H.
    destruct (has_appid (sr_appid g) (multiList st)) eqn:Hp.
    + left. eexists. eapply fail_duplicate_multi; eauto. by apply has_appid_spec.
    + right. by apply H.
  - by apply getGameType_not_both in Hty.
  - left. eexists. by eapply fail_unknown.
Qed.

(** C8: a submission that fails at any of its steps is answered with that
    step's reply, ephemerally; both collections are what they were and
    every entry of the cache is still there with its value.  The case
    [fail_details_transport] of [fails_at] is the detail fetch that throws
    after a search that found a candidate. *)
Theorem failed_submission_changes_nothing (cfg : config) (st : store)
    (channel : option jsstring) (gameName username : jsstring)
    (w : submission_world) (c : reply_content) :
  fails_at cfg st channel gameName w c →
  let out := wishlist_command cfg st channel gameName username w in
  final_step out = Some (Reply c true) ∧
  c ≠ ThumbsUp ∧
  singleList (out_store out) = singleList st ∧
  multiList (out_store out) = multiList st ∧
  ∀ k v, steamCache st !! k = Some v → steamCache (out_store out) !! k = Some v.
Proof.
  intros Hf out.
  assert (Hcache : ∀ c',
    final_step out = Some (Reply c' true) ∧
    singleList (out_store out) = singleList st ∧
    multiList (out_store out) = multiList st ∧
    steamCache (out_store out)
      = (searchSteamGame (steamCache st) gameName (search_answer w) (cache_saved w)).1.2 →
    c' ≠ ThumbsUp →
    final_step out = Some (Reply c' true) ∧ c' ≠ ThumbsUp ∧
    singleList (out_store out) = singleList st ∧
    multiList (out_store out) = multiList st ∧
    ∀ k v, steamCache st !! k = Some v → steamCache (out_store out) !! k = Some v).
  { intros c' (Hr & Hs & Hm & Hc) Hne. repeat split; try done.
    intros k v Hk. rewrite Hc. by apply search_keeps_entries. }
  destruct Hf as [Hch | Hch Hg | g Hch Hg Hd | g Hch Hg Hd | g d Hch Hg Hd Hty
                 | g d Hch Hg Hd Hty Hp | g d Hch Hg Hd Hty Hp].
  - subst out. unfold final_step, wishlist_command.
    rewrite bool_decide_eq_false_2 by done. by cbn.
  - apply Hcache; [| done].
    pose proof (wishlist_command_stops_early cfg st channel gameName username w Hch) as H.
    cbv zeta in H. by rewrite Hg in H.
  - apply Hcache; [| done].
    pose proof (wishlist_command_stops_early cfg st channel gameName username w Hch) as H.
    cbv zeta in H. by rewrite Hg, Hd in H.
  - apply Hcache; [| done].
    pose proof (wishlist_command_stops_early cfg st channel gameName username w Hch) as H.
    cbv zeta in H. rewrite Hg, Hd in H. exact H.
  - apply Hcache; [| done].
    pose proof (wishlist_command_stops_early cfg st channel gameName username w Hch) as H.
    cbv zeta in H. rewrite Hg, Hd in H. by apply H.
  - apply Hcache; [| done].
    pose proof (wishlist_command_classified cfg st channel gameName username w g d
                  Hch Hg Hd) as H.
    cbv zeta in H. rewrite Hty in H. cbn [dup appid] in H.
    apply has_appid_spec in Hp. rewrite Hp in H. by apply H.
  - apply Hcache; [| done].
    pose proof (wishlist_command_classified cfg st channel gameName username w g d
                  Hch Hg Hd) as H.
    cbv zeta in H. rewrite Hty in H. cbn [dup appid] in H.
    apply has_appid_spec in Hp. rewrite Hp in H. by apply H.
Qed.

(** C3: for a submission that reaches the duplicate test with chosen
    candidate [g], the reply is the duplicate warning exactly when an entry
    with [g]'s identifier is in the single collection if the game is
    classified [Single], and exactly when one is in the multi collection if
    it is classified [Multi]; the test for the type [Both] looks at the
    single collection. *)
Theorem duplicate_checked_in_own_collection (cfg : config) (st : store)
    (channel : option jsstring) (gameName username : jsstring)
    (w : submission_world) (g : SearchResult) (d : Details) :
  channel = SUBMISSION_CHANNEL_ID cfg →
  chosen st gameName w = Some g →
  fetchSteamDetails (sr_appid g) (details_answer w) = Some d →
  let out := wishlist_command cfg st channel gameName username w in
  (getGameType (d_categories d) = Single →
   (final_step out = Some (Reply Duplicate true) ↔ present (sr_appid g) (singleList st))) ∧
  (getGameType (d_categories d) = Multi →
   (final_step out = Some (Reply Duplicate true) ↔ present (sr_appid g) (multiList st))) ∧
  (∀ st' entry, dup Both st' entry = true ↔ present (appid entry) (singleList st')).
Proof.
  intros Hch Hg Hd out.
  pose proof (wishlist_command_classified cfg st channel gameName username w g d
                Hch Hg Hd) as H.
  cbv zeta in H. fold out in H.
  split; [| split].
  - intros Hty. rewrite Hty in H. cbn [dup appid] in H.
    rewrite <- has_appid_spec.
    destruct (has_appid (sr_appid g) (singleList st)).
    + split; [done | intros _; by apply H].
    + rewrite H by done. split; intros; done.
  - intros Hty. rewrite Hty in H. cbn [dup appid] in H.
    rewrite <- has_appid_spec.
    destruct (has_appid (sr_appid g) (multiList st)).
    + split; [done | intros _; by apply H].
    + rewrite H by done. split; intros; done.
  - intros st' entry. cbn [dup]. apply has_appid_spec.
Qed.

(** ** The completion monitor *)

Lemma counted_human_spec (m : Member) :
  counted_human m = true ↔ eligible_human m.
Proof.
  unfold counted_human, eligible_human.
  rewrite andb_true_iff, !negb_true_iff. apply and_iff_compat_l.
  rewrite <- not_true_iff_false, existsb_exists. apply not_iff_compat. split.
  - intros [role [Hin Hb]]. exists role.
    split; [by apply list_elem_of_In | by apply includes_spec].
  - intros [role [Hin Hb]]. exists role.
    split; [by apply list_elem_of_In | by apply includes_spec].
Qed.

Lemma counts_totalHumans (members : list Member) :
  counts eligible_human members (totalHumans members).
Proof.
  unfold totalHumans. induction members as [|m ms IH]; simpl; [constructor |].
  destruct (counted_human m) eqn:E; simpl.
  - apply counts_in; [by apply counted_human_spec | done].
  - apply counts_out; [| done].
    intros H. apply counted_human_spec in H. congruence.
Qed.

Lemma counts_unique {A} (P : A → Prop) (l : list A) (n m : nat) :
  counts P l n → counts P l m → n = m.
Proof.
  intros Hn. revert m.
  induction Hn as [|x l n Hx Hn IH|x l n Hx Hn IH]; intros m Hm;
    inversion Hm; subst; try done; auto.
Qed.

Lemma add_reactors_spec (users : list User) :
  ∀ acc : gset jsstring,
    add_reactors acc users = acc ∪ human_reactors {| reaction_users := users |}.
Proof.
  unfold add_reactors, human_reactors. simpl.
  induction users as [|u us IH]; intros acc; simpl.
  - set_solver.
  - rewrite IH. destruct (user_bot u); simpl; set_solver.
Qed.

Lemma uniqueReactors_spec (rs : list Reaction) :
  uniqueReactors rs = reactors_union rs.
Proof.
  unfold uniqueReactors, reactors_union.
  assert (H : ∀ acc : gset jsstring,
    fold_left (fun s react => add_reactors s (reaction_users react)) rs acc
      = acc ∪ ⋃ (map human_reactors rs)).
  { induction rs as [|r rs IH]; intros acc; simpl.
    - set_solver.
    - rewrite IH, add_reactors_spec. destruct r as [users]. simpl. set_solver. }
  rewrite H. set_solver.
Qed.

Lemma voice_channel_enters cfg g e create_ok :
  ∃ cap, EnterVoice cap ∈ voice_channel cfg g e create_ok.
Proof.
  exists (capitalizedName e). unfold voice_channel.
  destruct (existing_voice _ _); set_solver.
Qed.

Lemma totalHumans_zero (members : list Member) :
  (∀ m, m ∈ members → ¬ eligible_human m) → totalHumans members = 0%nat.
Proof.
  unfold totalHumans. induction members as [|m ms IH]; intros Hnone; [done |]. simpl.
  destruct (counted_human m) eqn:E.
  - exfalso. apply (Hnone m); [apply list_elem_of_here | by apply counted_human_spec].
  - apply IH. intros m' Hin. apply Hnone. by apply list_elem_of_further.
Qed.

(** The handler on a reaction that passes its guard, by the outcome of the
    quorum test. *)
Lemma messageReactionAdd_guarded cfg st msg user create_ok g :
  guild msg = Some g → user_bot user = false →
  let out := messageReactionAdd cfg st msg user create_ok in
  if (totalHumans (resolve_members g).1 <=? size (uniqueReactors (reactions msg)))%nat
  then DeleteMessage ∈ out_trace out ∧
       match embed_appid (head (embeds msg)) with
       | Some id =>
         out_store out = removeByAppid id st ∧
         ((∃ cap, EnterVoice cap ∈ out_trace out) ↔ has_appid id (multiList st) = true)
       | None => out_store out = st
       end
  else out_store out = st ∧ DeleteMessage ∉ out_trace out.
Proof.
  intros Hg Hu out. subst out. unfold messageReactionAdd. rewrite Hg, Hu.
  assert (Ht0 : ∀ x, x ∈ (resolve_members g).2 → x = Warn).
  { unfold resolve_members. destruct (members_fetch g); set_solver. }
  destruct (resolve_members g) as [members t0]. cbn [fst snd] in *.
  destruct (totalHumans members <=? size (uniqueReactors (reactions msg)))%nat.
  - destruct (head (embeds msg)) as [e|]; cbn [embed_appid].
    + fold (embed_appid (Some e)).
      destruct (embed_appid (Some e)) as [id|]; cbn [out_trace out_store].
      * split; [set_solver |]. split; [done |].
        destruct (has_appid id (multiList st)).
        -- split; [intros _; done |]. intros _.
           destruct (voice_channel_enters cfg g e create_ok) as [cap Hcap].
           exists cap. set_solver.
        -- split; [| done]. intros [cap Hcap].
           apply elem_of_app in Hcap as [Hcap | Hcap]; [apply Ht0 in Hcap; done |].
           set_solver.
      * split; [set_solver | done].
    + cbn [out_trace out_store]. split; [set_solver | done].
  - cbn [out_trace out_store]. split; [done |]. intros H. by apply Ht0 in H.
Qed.

Lemma resolve_members_warns (g : Guild) (x : step) :
  x ∈ (resolve_members g).2 → x = Warn.
Proof. unfold resolve_members. destruct (members_fetch g); set_solver. Qed.

Lemma messageReactionAdd_trace cfg st msg user create_ok g :
  guild msg = Some g → user_bot user = false →
  let out := messageReactionAdd cfg st msg user create_ok in
  if (totalHumans (resolve_members g).1 <=? size (uniqueReactors (reactions msg)))%nat
  then last (out_trace out) = Some DeleteMessage ∧
       ∀ id, embed_appid (head (embeds msg)) = Some id → SaveLists ∈ out_trace out
  else out_trace out = (resolve_members g).2.
Proof.
  intros Hg Hu out. subst out. unfold messageReactionAdd. rewrite Hg, Hu.
  destruct (resolve_members g) as [members t0]. cbn [fst snd].
  destruct (totalHumans members <=? size (uniqueReactors (reactions msg)))%nat; [| done].
  destruct (head (embeds msg)) as [e|]; cbn [embed_appid].
  - fold (embed_appid (Some e)).
    destruct (embed_appid (Some e)) as [id|]; cbn [out_trace].
    + split; [by rewrite !last_app | intros _ _; set_solver].
    + split; [by rewrite last_app | done].
  - cbn [out_trace]. split; [by rewrite last_app | done].
Qed.

(** C1: on a reaction of a non-bot user in a guild, the handler takes the
    quorum branch exactly when the non-bot user identifiers, united over
    all reactions of the message, are at least as many as the resolved
    members that are not bots and hold no role whose lower-cased name
    contains "bot".  On a quorum the handler ends by deleting the message,
    and when the embed link yields an identifier it takes the entries with
    that identifier out of both collections and saves them; the store is
    otherwise the one it started from.  Without a quorum the store is
    unchanged, nothing is saved or deleted, and the handler does nothing
    but the member fetch. *)
Theorem quorum_iff_reactors_cover_humans (cfg : config) (st : store)
    (msg : Message) (user : User) (create_ok : bool) (g : Guild) (humans : nat) :
  guild msg = Some g → user_bot user = false →
  counts eligible_human (resolve_members g).1 humans →
  let out := messageReactionAdd cfg st msg user create_ok in
  let quorum := (humans ≤ size (reactors_union (reactions msg)))%nat in
  (DeleteMessage ∈ out_trace out ↔ quorum) ∧
  (quorum →
   final_step out = Some DeleteMessage ∧
   out_store out = match embed_appid (head (embeds msg)) with
                   | Some id => removeByAppid id st
                   | None => st
                   end ∧
   ∀ id, embed_appid (head (embeds msg)) = Some id →
         SaveLists ∈ out_trace out ∧
         ¬ present id (singleList (out_store out)) ∧
         ¬ present id (multiList (out_store out))) ∧
  (¬ quorum →
   out_store out = st ∧
   out_trace out = (resolve_members g).2 ∧
   SaveLists ∉ out_trace out).
Proof.
  intros Hg Hu Hcount out quorum. subst out quorum.
  pose proof (messageReactionAdd_guarded cfg st msg user create_ok g Hg Hu) as H.
  pose proof (messageReactionAdd_trace cfg st msg user create_ok g Hg Hu) as Ht.
  cbv zeta in H, Ht. unfold final_step.
  rewrite (counts_unique _ _ _ _ Hcount (counts_totalHumans _)), <- uniqueReactors_spec.
  destruct (Nat.leb_spec (totalHumans (resolve_members g).1)
              (size (uniqueReactors (reactions msg)))) as [Hle | Hlt].
  - destruct H as [Hdel Hst], Ht as [Hlast Hsave].
    split; [done |]. split; [| lia]. intros _. split; [done |].
    destruct (embed_appid (head (embeds msg))) as [id|]; [| done].
    destruct Hst as [Hst _]. split; [done |]. intros ? [= <-].
    split; [by apply (Hsave id) |]. rewrite Hst. split; apply remove_appid_absent.
  - destruct H as [Hst Hdel].
    split; [split; [done | lia] |]. split; [lia |]. intros _.
    split; [done |]. split; [done |]. rewrite Ht. intros Hin.
    by apply resolve_members_warns in Hin.
Qed.

(** C5: on a quorum event whose embed link yields the identifier [id], the
    handler enters the voice-channel branch exactly when an entry with
    [id] is in the multi collection of the store it starts from; in the
    store it returns, neither collection has an entry with [id]. *)
Theorem voice_branch_iff_multi_before_removal (cfg : config) (st : store)
    (msg : Message) (user : User) (create_ok : bool) (g : Guild) (id : Z) :
  guild msg = Some g → user_bot user = false →
  (totalHumans (resolve_members g).1 ≤ size (uniqueReactors (reactions msg)))%nat →
  embed_appid (head (embeds msg)) = Some id →
  let out := messageReactionAdd cfg st msg user create_ok in
  ((∃ cap, EnterVoice cap ∈ out_trace out) ↔ present id (multiList st)) ∧
  ¬ present id (singleList (out_store out)) ∧
  ¬ present id (multiList (out_store out)).
Proof.
  intros Hg Hu Hq Hid out.
  pose proof (messageReactionAdd_guarded cfg st msg user create_ok g Hg Hu) as H.
  cbv zeta in H. fold out in H.
  apply Nat.leb_le in Hq. rewrite Hq, Hid in H.
  destruct H as (_ & Hst & Hvoice). rewrite Hst.
  split; [by rewrite <- has_appid_spec |].
  split; apply remove_appid_absent.
Qed.

(** C10: when every resolved member is a bot account or holds a role whose
    lower-cased name contains "bot", a reaction of a non-bot user makes the
    handler delete the message, whatever the reactions on it are, and when
    the embed link yields an identifier the returned store has no entry
    with it in either collection. *)
Theorem no_counted_human_one_reaction (cfg : config) (st : store)
    (msg : Message) (user : User) (create_ok : bool) (g : Guild) :
  guild msg = Some g → user_bot user = false →
  (∀ m, m ∈ (resolve_members g).1 →
        user_bot (member_user m) = true ∨
        ∃ role, role ∈ member_roles m ∧
                substring_of (lit "bot") (toLowerCase (role_name role))) →
  let out := messageReactionAdd cfg st msg user create_ok in
  DeleteMessage ∈ out_trace out ∧
  ∀ id, embed_appid (head (embeds msg)) = Some id →
        out_store out = removeByAppid id st ∧
        ¬ present id (singleList (out_store out)) ∧
        ¬ present id (multiList (out_store out)).
Proof.
  intros Hg Hu Hnone out.
  assert (Hzero : totalHumans (resolve_members g).1 = 0%nat).
  { apply totalHumans_zero. intros m Hin [Hbot Hrole].
    destruct (Hnone m Hin) as [Hb | Hr]; [congruence | by apply Hrole]. }
  pose proof (messageReactionAdd_guarded cfg st msg user create_ok g Hg Hu) as H.
  cbv zeta in H. fold out in H. rewrite Hzero in H. cbn [Nat.leb] in H.
  destruct H as [Hdel Hst]. split; [done |].
  intros id Hid. rewrite Hid in Hst. destruct Hst as [Hst _]. rewrite Hst.
  split; [done |]. split; apply remove_appid_absent.
Qed.

(** Members none of which counts, read off the count. *)
Lemma totalHumans_zero_excluded (members : list Member) :
  totalHumans members = 0%nat →
  ∀ m, m ∈ members →
       user_bot (member_user m) = true ∨
       ∃ role, role ∈ member_roles m ∧
               substring_of (lit "bot") (toLowerCase (role_name role)).
Proof.
  unfold totalHumans. intros Hzero m Hin.
  apply length_zero_iff_nil in Hzero.
  destruct (counted_human m) eqn:E.
  - exfalso. apply list_elem_of_In in Hin.
    assert (Hm : In m (List.filter counted_human members)) by (by apply filter_In).
    rewrite Hzero in Hm. done.
  - unfold counted_human in E. apply andb_false_iff in E as [E | E].
    + left. by apply negb_false_iff.
    + right. apply negb_false_iff, existsb_exists in E as [role [Hr Hb]].
      exists role. split; [by apply list_elem_of_In | by apply includes_spec].
Qed.

(** *** The voice channel *)

Lemma capitalizedName_length (e : Embed) (n : jsstring) :
  capitalizedName e = Some n → (length n ≤ 90)%nat.
Proof.
  unfold capitalizedName. destruct (title e) as [t|]; [| done].
  intros [= <-]. rewrite length_take. lia.
Qed.

(** A match in progress runs to the end of a string without white space. *)
Lemma replace_words_in_word (f : jsstring → jsstring) (s cur : jsstring) :
  forallb (fun c => negb (is_space c)) s = true →
  replace_words f (Some cur) s = f (cur ++ s).
Proof.
  revert cur. induction s as [|c s IH]; intros cur Hs; simpl.
  - by rewrite app_nil_r.
  - simpl in Hs. apply andb_true_iff in Hs as [Hc Hs].
    apply negb_true_iff in Hc. rewrite Hc, IH by done.
    by rewrite <- app_assoc.
Qed.

(** A word that starts with a [\w] unit is replaced as a whole. *)
Lemma replace_words_word (f : jsstring → jsstring) (c : N) (s : jsstring) :
  is_word c = true →
  forallb (fun c => negb (is_space c)) s = true →
  replace_words f None (c :: s) = f (c :: s).
Proof. intros Hc Hs. simpl. rewrite Hc. by apply replace_words_in_word. Qed.

(** The channel is created exactly when no voice channel is named with the
    lower-cased derived name, letter for letter. *)
Lemma voice_channel_created_iff cfg g e create_ok :
  (∃ name parent, CreateVoice name parent ∈ voice_channel cfg g e create_ok) ↔
  ¬ ∃ c, c ∈ channels_cache g ∧ channel_type c = GuildVoice ∧
         Some (channel_name c) = option_map toLowerCase (capitalizedName e).
Proof.
  unfold voice_channel, existing_voice.
  destruct (find _ (channels_cache g)) as [c|] eqn:Hfind.
  - apply find_some in Hfind as [Hin Hc]. apply andb_true_iff in Hc as [Hty Hname].
    apply bool_decide_eq_true in Hname. split.
    + intros (name & parent & H). apply list_elem_of_singleton in H. done.
    + intros Hno. exfalso. apply Hno. exists c.
      split; [by apply list_elem_of_In |]. split; [by destruct (channel_type c) | done].
  - split.
    + intros _ (c & Hin & Hty & Hname).
      apply list_elem_of_In in Hin.
      pose proof (find_none _ _ Hfind c Hin) as Hc. cbv beta in Hc.
      rewrite Hty, bool_decide_eq_true_2 in Hc by done. done.
    + intros _. eexists _, _. apply list_elem_of_further, list_elem_of_here.
Qed.

End Properties.

(** * Further properties of the handlers *)

Section Coverage.
Context {rt : Runtime}.

(** ** The catalog resolver *)

Lemma to_result_linked (items : list store_item) :
  Forall linked (map to_result items).
Proof. induction items; constructor; done. Qed.

Lemma search_results_ok (cache : gmap jsstring (list SearchResult)) q answer save_ok :
  cache_ok cache →
  cache_ok (searchSteamGame cache q answer save_ok).1.2 ∧
  (length (searchSteamGame cache q answer save_ok).1.1 ≤ 10)%nat ∧
  Forall linked (searchSteamGame cache q answer save_ok).1.1.
Proof.
  intros Hok. unfold searchSteamGame.
  destruct (cache !! cacheKey q) as [hit|] eqn:Hq.
  - cbn [fst snd]. split; [done |]. apply (Hok _ _ Hq).
  - assert (Hnil : (length (@nil SearchResult) ≤ 10)%nat ∧ Forall linked []).
    { split; [simpl; lia | constructor]. }
    destruct answer as [| |status [|items]]; try done;
      destruct (res_ok status); try done. cbn [negb].
    assert (Hnew : (length (map to_result
                            (take 10 match items with Some a => a | None => [] end)) ≤ 10)%nat
                   ∧ Forall linked (map to_result
                            (take 10 match items with Some a => a | None => [] end))).
    { split; [| apply to_result_linked]. rewrite length_map, length_take. lia. }
    assert (Hins : cache_ok (<[cacheKey q :=
                      map to_result (take 10 match items with Some a => a | None => [] end)]>
                      cache)).
    { intros k rs Hk. destruct (decide (cacheKey q = k)) as [<- | Hne].
      - rewrite lookup_insert_eq in Hk. by injection Hk as <-.
      - rewrite lookup_insert_ne in Hk by done. by apply (Hok k). }
    destruct save_ok; cbn [fst snd]; done.
Qed.

Lemma interactionCreate_cache cfg st i w :
  steamCache (out_store (interactionCreate cfg st i w)) = steamCache st ∨
  ∃ q answer save_ok,
    steamCache (out_store (interactionCreate cfg st i w))
      = (searchSteamGame (steamCache st) q answer save_ok).1.2.
Proof.
  destruct i as [focused | commandName channel game username |]; cbn [interactionCreate].
  - right. exists focused, (search_answer w), (cache_saved w). unfold autocomplete.
    by destruct (searchSteamGame _ _ _ _) as [[r c1] t1].
  - destruct (str_eqb commandName (lit "wishlist")); cbn [negb]; [| by left].
    unfold wishlist_command. destruct (bool_decide _); cbn [negb]; [| by left].
    right. exists game, (search_answer w), (cache_saved w).
    destruct (searchSteamGame _ _ _ _) as [[r c1] t1]. cbn [fst snd].
    destruct (pick_match game r) as [g|]; [| done].
    destruct (fetchSteamDetails _ _) as [d|]; [| done].
    destruct (getGameType (d_categories d)); try done;
      destruct (dup _ _ _); done.
  - by left.
Qed.

Lemma messageReactionAdd_cache cfg st msg user create_ok :
  steamCache (out_store (messageReactionAdd cfg st msg user create_ok)) = steamCache st.
Proof.
  unfold messageReactionAdd. destruct (guild msg) as [g|]; [| done].
  destruct (user_bot user); [done |].
  destruct (resolve_members g) as [members t0].
  destruct (_ <=? _)%nat; [| done].
  destruct (head (embeds msg)) as [e|]; [| done].
  by destruct (embed_appid (Some e)).
Qed.

Lemma handle_cache cfg st ev :
  steamCache (out_store (handle cfg st ev)) = steamCache st ∨
  ∃ q answer save_ok,
    steamCache (out_store (handle cfg st ev))
      = (searchSteamGame (steamCache st) q answer save_ok).1.2.
Proof.
  destruct ev as [i w | msg user create_ok]; cbn [handle].
  - apply interactionCreate_cache.
  - left. apply messageReactionAdd_cache.
Qed.

(** X1: a lookup that succeeds after a cache miss stores its results (at
    most ten) under the key of the query; the call returns them, or the
    empty array when the cache file cannot be written; whatever searches
    follow, a search with the same normal form returns the stored results
    and issues no request. *)
Theorem successful_search_is_replayed (cache : gmap jsstring (list SearchResult))
    (q : jsstring) (answer : search_fetch) (save_ok : bool)
    (results : list SearchResult) :
  cache !! cacheKey q = None →
  lookup_succeeds_with answer results →
  (searchSteamGame cache q answer save_ok).1.1 = (if save_ok then results else []) ∧
  (length results ≤ 10)%nat ∧
  ∀ calls q' answer' save_ok',
    cleaned q' = cleaned q →
    let cache' := later_searches (searchSteamGame cache q answer save_ok).1.2 calls in
    searchSteamGame cache' q' answer' save_ok' = (results, cache', []).
Proof.
  intros Hmiss (status & items & -> & Hok & ->).
  assert (Hrun : searchSteamGame cache q (Response status (Parsed items)) save_ok
            = (if save_ok then map to_result (take 10 (default [] items)) else [],
               <[cacheKey q := map to_result (take 10 (default [] items))]> cache,
               if save_ok then [FetchSearch (cleaned q); SaveCache]
               else [FetchSearch (cleaned q); SaveCache; Warn])).
  { unfold searchSteamGame. rewrite Hmiss, Hok. cbn [negb]. by destruct save_ok. }
  rewrite Hrun. cbn [fst snd]. split; [done |]. split.
  - rewrite length_map, length_take. lia.
  - intros calls q' answer' save_ok' Hnorm. cbv zeta.
    apply search_hit. unfold cacheKey. rewrite Hnorm.
    apply later_searches_keep_entries. apply lookup_insert_eq.
Qed.

(** X2: if every cached list has at most ten results, each linked to the
    store page of its identifier, a search returns such a list and leaves
    such a cache, and so does every sequence of events. *)
Theorem cache_stays_well_formed (cfg : config) (st : store) :
  cache_ok (steamCache st) →
  (∀ q answer save_ok,
     (length (searchSteamGame (steamCache st) q answer save_ok).1.1 ≤ 10)%nat ∧
     Forall linked (searchSteamGame (steamCache st) q answer save_ok).1.1) ∧
  ∀ evs, cache_ok (steamCache (run cfg st evs)).
Proof.
  intros Hok. split.
  - intros q answer save_ok. by apply search_results_ok.
  - intros evs. revert st Hok. unfold run.
    induction evs as [|ev evs IH]; intros st Hok; [done |]. cbn [fold_left].
    apply IH. destruct (handle_cache cfg st ev) as [-> | (q & answer & save_ok & ->)];
      [done | by apply search_results_ok].
Qed.

(** X3: an entry of the cache is never dropped or replaced: after every
    sequence of events the key still has its value. *)
Theorem cache_entries_are_permanent (cfg : config) (st : store) (evs : list event)
    (k : jsstring) (v : list SearchResult) :
  steamCache st !! k = Some v →
  steamCache (run cfg st evs) !! k = Some v.
Proof.
  revert st. unfold run.
  induction evs as [|ev evs IH]; intros st Hk; [done |]. cbn [fold_left].
  apply IH. destruct (handle_cache cfg st ev) as [-> | (q & answer & save_ok & ->)];
    [done | by apply search_keeps_entries].
Qed.

(** ** The choice of the candidate and the classifier *)

(** X4: the command has no candidate exactly when the search returned
    nothing; a chosen candidate is one of the search results, and it is
    either one whose lower-cased name equals the lower-cased query or, when
    no result has such a name, the first result. *)
Theorem pick_match_prefers_exact_name (gameName : jsstring) (matches : list SearchResult) :
  (pick_match gameName matches = None ↔ matches = []) ∧
  ∀ m, pick_match gameName matches = Some m →
       m ∈ matches ∧
       (toLowerCase (sr_name m) = toLowerCase gameName ∨
        (head matches = Some m ∧
         ∀ x, x ∈ matches → toLowerCase (sr_name x) ≠ toLowerCase gameName)).
Proof.
  unfold pick_match.
  destruct (find _ matches) as [m0|] eqn:Hfind.
  - apply find_some in Hfind as [Hin Hname].
    apply bool_decide_eq_true in Hname. split.
    + split; [done | intros ->; by apply in_nil in Hin].
    + intros m [= <-]. split; [by apply list_elem_of_In | by left].
  - split.
    + destruct matches; [done |]. split; done.
    + intros m Hhead. split.
      * destruct matches as [|x xs]; [done |]. injection Hhead as <-.
        apply list_elem_of_here.
      * right. split; [done |]. intros x Hx Hname.
        apply list_elem_of_In in Hx.
        pose proof (find_none _ _ Hfind x Hx) as Hf. cbv beta in Hf.
        unfold str_eqb in Hf. by rewrite bool_decide_eq_true_2 in Hf.
Qed.

Lemma getGameType_same_tags (cats cats' : list jsstring) :
  (∀ c, c ∈ cats ↔ c ∈ cats') → getGameType cats = getGameType cats'.
Proof.
  intros Hsame. unfold getGameType.
  assert (Hm : existsb multi_tag (map toLowerCase cats)
               = existsb multi_tag (map toLowerCase cats')).
  { apply eq_true_iff_eq. rewrite !isMulti_spec.
    split; intros [c [Hin Hc]]; exists c; (split; [by apply Hsame | done]). }
  assert (Hs : array_includes (map toLowerCase cats) (lit "single-player")
               = array_includes (map toLowerCase cats') (lit "single-player")).
  { apply eq_true_iff_eq. rewrite !array_includes_spec, !list_elem_of_fmap.
    split; intros [c [Hc Hin]]; exists c; (split; [done | by apply Hsame]). }
  by rewrite Hm, Hs.
Qed.

(** X5: the type of a game depends only on which tags it has, not on their
    order or repetition; and a game classified as multiplayer stays so when
    tags are added. *)
Theorem getGameType_depends_on_tag_set (cats cats' : list jsstring) :
  ((∀ c, c ∈ cats ↔ c ∈ cats') → getGameType cats = getGameType cats') ∧
  (getGameType cats = Multi → (∀ c, c ∈ cats → c ∈ cats') → getGameType cats' = Multi).
Proof.
  split; [apply getGameType_same_tags |].
  unfold getGameType. intros Hmulti Hsub.
  destruct (existsb multi_tag (map toLowerCase cats)) eqn:Hm;
    [| by destruct (array_includes _ _)].
  apply isMulti_spec in Hm as [c [Hin Hc]].
  assert (Hm' : existsb multi_tag (map toLowerCase cats') = true).
  { apply isMulti_spec. exists c. split; [by apply Hsub | done]. }
  by rewrite Hm'.
Qed.

(** ** The details and the announcement *)

(** X6: [fetchSteamDetails] returns nothing exactly when the lookup throws
    or the record has no data; otherwise the details carry the record's
    name, the store page of the requested identifier, a description and a
    price that are never empty, and the price "Free" for a free game
    whatever its price overview is. *)
Theorem fetchSteamDetails_fills_defaults (id : Z) (answer : details_fetch) :
  (fetchSteamDetails id answer = None ↔
   answer = DetailsThrows ∨ answer = DetailsJson None) ∧
  ∀ game, answer = DetailsJson (Some game) →
    ∃ d, fetchSteamDetails id answer = Some d ∧
         d_name d = game_name game ∧
         d_url d = app_url id ∧
         d_description d ≠ [] ∧
         d_price d ≠ [] ∧
         (is_free game = true → d_price d = lit "Free") ∧
         (categories game = None → d_categories d = []) ∧
         (genres game = None → d_genres d = []).
Proof.
  split.
  - destruct answer as [|[game|]]; cbn.
    + split; [by left | done].
    + split; [done | intros [H | H]; done].
    + split; [by right | done].
  - intros game ->. eexists. split; [reflexivity |]. cbn.
    repeat split; try done.
    + by destruct (short_description game) as [[|c s]|].
    + destruct (is_free game); [done |].
      by destruct (final_formatted game) as [[|c s]|].
    + by intros ->.
    + by intros ->.
    + by intros ->.
Qed.

Lemma or_else_nonempty (x : option jsstring) (d : jsstring) :
  d ≠ [] → or_else x d ≠ [].
Proof. intros Hd. by destruct x as [[|c s]|]. Qed.

(** X7: [postGameEmbed] sends at most one embed, to the channel it was
    given, and only when that channel is text-based and the details could
    be fetched; the embed links to the store page of the entry, its
    description has at most 303 code units and always ends with "...", and
    none of its three field values is empty. *)
Theorem postGameEmbed_sends_valid_embed (channelId : option jsstring)
    (entry : WishlistEntry) (text_based : bool) (answer : details_fetch) :
  (text_based = false ∨ fetchSteamDetails (appid entry) answer = None →
   ∀ c e, SendEmbed c e ∉ postGameEmbed channelId entry text_based answer) ∧
  ∀ c e, SendEmbed c e ∈ postGameEmbed channelId entry text_based answer →
    postGameEmbed channelId entry text_based answer
      = [FetchDetails (appid entry); SendEmbed channelId e] ∧
    c = channelId ∧
    url e = Some (app_url (appid entry)) ∧
    (length (description e) ≤ 303)%nat ∧
    (∃ text, description e = text ++ lit "...") ∧
    length (fields e) = 3%nat ∧
    Forall (λ f, f.2 ≠ []) (fields e).
Proof.
  unfold postGameEmbed. split.
  - intros [-> | ->]; intros c e Hin; cbn in Hin.
    + by apply elem_of_nil in Hin.
    + destruct text_based; cbn in Hin; [| by apply elem_of_nil in Hin].
      apply list_elem_of_singleton in Hin. done.
  - intros c e Hin. destruct text_based; cbn [negb] in *;
      [| by apply elem_of_nil in Hin].
    destruct (fetchSteamDetails (appid entry) answer) as [d|] eqn:Hd;
      [| apply list_elem_of_singleton in Hin; done].
    apply elem_of_cons in Hin as [Hin | Hin]; [done |].
    apply list_elem_of_singleton in Hin. injection Hin as -> ->.
    cbn [url description fields].
    assert (Hurl : d_url d = app_url (appid entry)).
    { destruct answer as [|[game|]]; try done. by injection Hd as <-. }
    assert (Hprice : d_price d ≠ []).
    { destruct answer as [|[game|]]; try done. injection Hd as <-. cbn.
      destruct (is_free game); [done |].
      by destruct (final_formatted game) as [[|c s]|]. }
    repeat split; try done.
    + by rewrite Hurl.
    + rewrite length_app, length_take. change (length (lit "...")) with 3%nat. lia.
    + by exists (take 300 (d_description d)).
    + repeat constructor; cbn [snd]; [done | by destruct (join _ _) ..].
Qed.

(** ** The link of an announcement and the identifier read from it *)

Lemma leading_digits_split (t : jsstring) :
  forallb is_digit (leading_digits t) = true ∧
  ∃ post, t = leading_digits t ++ post ∧
          match post with [] => True | c :: _ => is_digit c = false end.
Proof.
  induction t as [|c t [IHd (post & IHt & IHp)]]; cbn.
  - split; [done |]. by exists [].
  - destruct (is_digit c) eqn:Hc; cbn.
    + rewrite Hc. split; [done |]. exists post. split; [by rewrite <- IHt | done].
    + split; [done |]. by exists (c :: t).
Qed.

Lemma leading_digits_app (ds rest : jsstring) :
  forallb is_digit ds = true →
  leading_digits (ds ++ rest) = ds ++ leading_digits rest.
Proof.
  induction ds as [|c ds IH]; [done |]. cbn. intros H.
  apply andb_true_iff in H as [Hc Hds]. by rewrite Hc, IH.
Qed.

Lemma match_app_here (t : jsstring) :
  leading_digits t ≠ [] →
  match_app (lit "/app/" ++ t) = Some (leading_digits t).
Proof.
  intros Hne.
  assert (Hst : starts_with (lit "/app/") (lit "/app/" ++ t) = true).
  { apply starts_with_spec. by exists t. }
  change (lit "/app/" ++ t) with (47 :: [97; 112; 112; 47] ++ t) in *.
  cbn [match_app]. rewrite Hst.
  change (drop 5 (47 :: [97; 112; 112; 47] ++ t)) with t.
  by destruct (leading_digits t).
Qed.

Lemma match_app_skips_host (rest : jsstring) :
  match_app (lit "https://store.steampowered.com" ++ rest) = match_app rest.
Proof. vm_compute. reflexivity. Qed.

Lemma match_app_cons (c : N) (s : jsstring) (ds : jsstring) :
  match_app (c :: s) = Some ds →
  (∃ t, c :: s = lit "/app/" ++ t ∧ leading_digits t = ds ∧ ds ≠ []) ∨
  match_app s = Some ds.
Proof.
  cbn [match_app]. destruct (starts_with (lit "/app/") (c :: s)) eqn:Hst; [| by right].
  apply starts_with_spec in Hst as [t Ht]. rewrite Ht.
  change (drop 5 (lit "/app/" ++ t)) with t.
  destruct (leading_digits t) as [|d ds'] eqn:Hd; [by right |].
  intros [= <-]. left. by exists t.
Qed.

Lemma match_app_found (s ds : jsstring) :
  match_app s = Some ds →
  ds ≠ [] ∧ forallb is_digit ds = true ∧
  ∃ pre post, s = pre ++ lit "/app/" ++ ds ++ post ∧
              match post with [] => True | c :: _ => is_digit c = false end.
Proof.
  induction s as [|c s IH]; [done |]. intros Hm.
  apply match_app_cons in Hm as [(t & Ht & Hd & Hne) | Hm].
  - destruct (leading_digits_split t) as (Hall & post & Hsplit & Hpost).
    rewrite Hd in *. split; [done |]. split; [done |].
    exists [], post. split; [| done]. cbn [app]. by rewrite Ht, Hsplit at 1.
  - destruct (IH Hm) as (Hne & Hall & pre & post & -> & Hpost).
    split; [done |]. split; [done |]. by exists (c :: pre), post.
Qed.

(** X8: the identifier is read from a link as the regular expression
    [/\/app\/(\d+)/] does: a match is a non-empty run of digits that
    follows an occurrence of "/app/" in the link and is not followed by a
    digit; there is no match exactly when no "/app/" in the link is
    followed by a digit. *)
Theorem match_app_finds_digits_after_app (s : jsstring) :
  (∀ ds, match_app s = Some ds →
     ds ≠ [] ∧ forallb is_digit ds = true ∧
     ∃ pre post, s = pre ++ lit "/app/" ++ ds ++ post ∧
                 match post with [] => True | c :: _ => is_digit c = false end) ∧
  (match_app s = None ↔
   ¬ ∃ pre d post, s = pre ++ lit "/app/" ++ d :: post ∧ is_digit d = true).
Proof.
  split; [intros ds; apply match_app_found |]. split.
  - induction s as [|c s IH]; intros Hnone (pre & d & post & Hs & Hd).
    + destruct pre; discriminate.
    + destruct pre as [|c' pre].
      * cbn [app] in Hs. rewrite Hs, match_app_here in Hnone; [done |].
        cbn. by rewrite Hd.
      * injection Hs as -> Hs. apply IH; [| by exists pre, d, post].
        cbn [match_app] in Hnone.
        destruct (starts_with _ _); [| done].
        by destruct (leading_digits _).
  - intros Hno. destruct (match_app s) as [ds|] eqn:Hm; [| done].
    exfalso. apply Hno.
    destruct (match_app_found s ds Hm) as (Hne & Hall & pre & post & -> & _).
    destruct ds as [|d ds]; [done |]. cbn in Hall.
    apply andb_true_iff in Hall as [Hd _].
    exists pre, d, (ds ++ post). by rewrite <- app_comm_cons.
Qed.

Lemma parse_digits_acc (d : Decimal.uint) :
  ∀ acc : positive,
    fold_left (fun acc c => (acc * 10 + (Z.of_N c - 48))%Z)
      (lit (NilEmpty.string_of_uint d)) (Z.pos acc)
    = Z.pos (Pos.of_uint_acc d acc).
Proof.
  induction d; intros acc; cbn [NilEmpty.string_of_uint Pos.of_uint_acc];
    [done | ..];
    (etransitivity; [| apply IHd]); cbn; f_equal; lia.
Qed.

Lemma parse_digits (d : Decimal.uint) :
  decimal_value (lit (NilEmpty.string_of_uint d)) = Z.of_N (Pos.of_uint d).
Proof.
  unfold decimal_value.
  induction d; cbn [NilEmpty.string_of_uint Pos.of_uint]; [done | ..];
    first [exact IHd | apply (parse_digits_acc d)].
Qed.

Lemma digits_are_digits (d : Decimal.uint) :
  forallb is_digit (lit (NilEmpty.string_of_uint d)) = true.
Proof. induction d; cbn; done. Qed.

Lemma decimal_digits (m : Z) : forallb is_digit (decimal m) = true.
Proof.
  unfold decimal. destruct (N.to_uint (Z.to_N m)) eqn:Hd; try done;
    rewrite <- Hd;
    (replace (NilZero.string_of_uint (N.to_uint (Z.to_N m)))
       with (NilEmpty.string_of_uint (N.to_uint (Z.to_N m))) by (by rewrite Hd));
    apply digits_are_digits.
Qed.

Lemma decimal_of_pos (p : positive) :
  decimal (Z.pos p) = lit (NilEmpty.string_of_uint (Pos.to_uint p)).
Proof.
  unfold decimal. cbn [Z.to_N N.to_uint].
  pose proof (DecimalPos.Unsigned.to_uint_nonnil p) as Hnil.
  by destruct (Pos.to_uint p).
Qed.

Lemma number_to_string_digits (id : Z) :
  (0 ≤ id ≤ 2 ^ 53)%Z →
  number_to_string id ≠ [] ∧
  forallb is_digit (number_to_string id) = true ∧
  parseInt (number_to_string id) = id.
Proof.
  intros [Hlo Hhi]. unfold number_to_string, nonneg_to_string.
  destruct (Z.ltb_spec id 0) as [? | _]; [lia |].
  destruct (Z.leb_spec id (2 ^ 53)) as [_ | ?]; [| lia].
  split; [| split; [apply decimal_digits |]].
  - destruct id as [|p|p]; [done | | lia].
    rewrite decimal_of_pos.
    pose proof (DecimalPos.Unsigned.to_uint_nonnil p) as Hnil.
    by destruct (Pos.to_uint p).
  - unfold parseInt.
    assert (Hval : decimal_value (decimal id) = id).
    { destruct id as [|p|p]; [done | | lia].
      by rewrite decimal_of_pos, parse_digits, DecimalPos.Unsigned.of_to. }
    rewrite Hval. unfold to_double.
    by destruct (Z.leb_spec id (2 ^ 53)) as [_ | ?]; [| lia].
Qed.

Lemma match_app_store_page (t : jsstring) :
  leading_digits t ≠ [] →
  match_app (lit "https://store.steampowered.com/app/" ++ t) = Some (leading_digits t).
Proof.
  intros Hne.
  change (lit "https://store.steampowered.com/app/")
    with (lit "https://store.steampowered.com" ++ lit "/app/").
  by rewrite <- app_assoc, match_app_skips_host, match_app_here.
Qed.

Lemma embed_appid_store_page (id : Z) (e : Embed) :
  (0 ≤ id ≤ 2 ^ 53)%Z → url e = Some (app_url id) → embed_appid (Some e) = Some id.
Proof.
  intros Hid Hurl. unfold embed_appid. rewrite Hurl. unfold app_url.
  destruct (number_to_string_digits id Hid) as (Hne & Hdigits & Hparse).
  assert (Hlead : leading_digits (number_to_string id) = number_to_string id).
  { rewrite <- (app_nil_r (number_to_string id)) at 1.
    rewrite leading_digits_app by done. cbn. by rewrite app_nil_r. }
  rewrite match_app_store_page by (by rewrite Hlead).
  cbn. by rewrite Hlead, Hparse.
Qed.

(** X9: the link that the bot writes for an identifier from 0 to 2^53,
    in a search result, in the details and in the announcement, is read
    back by the completion monitor as that identifier. *)
Theorem store_page_link_round_trip (id : Z) (e : Embed) :
  (0 ≤ id ≤ 2 ^ 53)%Z →
  url e = Some (app_url id) →
  embed_appid (Some e) = Some id.
Proof. apply embed_appid_store_page. Qed.

Lemma match_app_no_slash (s : jsstring) :
  Forall (λ c, c ≠ 47) s → match_app s = None.
Proof.
  induction s as [|c s IH]; [done |]. intros H.
  apply Forall_cons in H as [Hc Hs]. cbn [match_app].
  assert (Hst : starts_with (lit "/app/") (c :: s) = false).
  { change (lit "/app/") with (47 :: [97; 112; 112; 47]). cbn [starts_with].
    destruct (N.eqb_spec 47 c); [congruence | done]. }
  rewrite Hst. by apply IH.
Qed.

Lemma digits_no_slash (s : jsstring) :
  forallb is_digit s = true → Forall (λ c, c ≠ 47) s.
Proof.
  intros H. apply Forall_forall. intros c Hin Hc. subst c.
  apply list_elem_of_In in Hin.
  pose proof (proj1 (forallb_forall is_digit s) H _ Hin) as Hd. done.
Qed.

Lemma nonneg_to_string_no_slash (m : Z) :
  Forall (λ c, c ≠ 47) (nonneg_to_string m).
Proof.
  unfold nonneg_to_string.
  destruct (m <=? 2 ^ 53)%Z; [apply digits_no_slash, decimal_digits |].
  destruct (shortest _ _ _ _) as [[s k] n].
  pose proof (digits_no_slash _ (decimal_digits s)) as Hs.
  destruct (n <=? 21)%nat.
  - apply Forall_app. split; [done |]. apply Forall_forall.
    intros c Hc. apply list_elem_of_In, repeat_spec in Hc. by subst c.
  - repeat (apply Forall_app; split).
    + by apply Forall_take.
    + pose proof (Forall_drop _ 1 _ Hs) as Hd.
      destruct (drop 1 (decimal s)); [done |]. by apply Forall_cons.
    + by repeat constructor.
    + apply digits_no_slash, decimal_digits.
Qed.

Lemma number_to_string_negative (id : Z) :
  (id < 0)%Z → number_to_string id = 45 :: nonneg_to_string (- id).
Proof.
  intros Hid. unfold number_to_string.
  by destruct (Z.ltb_spec id 0) as [_ | ?]; [| lia].
Qed.

Lemma match_app_minus (ds : jsstring) :
  match_app (lit "https://store.steampowered.com/app/" ++ 45 :: ds) = match_app ds.
Proof. vm_compute. reflexivity. Qed.

(** X10: for a negative identifier the link has a "-" after "/app/", and
    the completion monitor reads no identifier from it. *)
Theorem negative_id_link_is_not_read (id : Z) (e : Embed) :
  (id < 0)%Z →
  url e = Some (app_url id) →
  embed_appid (Some e) = None.
Proof.
  intros Hid Hurl. unfold embed_appid. rewrite Hurl. unfold app_url.
  rewrite (number_to_string_negative id Hid), match_app_minus.
  by rewrite (match_app_no_slash _ (nonneg_to_string_no_slash (- id))).
Qed.

(** ** The submission handler *)

Lemma search_trace_steps (cache : gmap jsstring (list SearchResult)) q answer save_ok s :
  s ∈ (searchSteamGame cache q answer save_ok).2 →
  s = FetchSearch (cleaned q) ∨ s = SaveCache ∨ s = Warn.
Proof.
  unfold searchSteamGame. destruct (cache !! cacheKey q); cbn [snd].
  - intros H. by apply elem_of_nil in H.
  - destruct answer as [| |status [|items]]; try (destruct (res_ok status));
      cbn [negb snd]; try (destruct save_ok); cbn [snd];
      rewrite ?elem_of_cons, elem_of_nil; tauto.
Qed.

Lemma search_saves_changes (cache : gmap jsstring (list SearchResult)) q answer save_ok :
  (searchSteamGame cache q answer save_ok).1.2 ≠ cache →
  SaveCache ∈ (searchSteamGame cache q answer save_ok).2.
Proof.
  unfold searchSteamGame. destruct (cache !! cacheKey q); cbn [fst snd]; [done |].
  destruct answer as [| |status [|items]]; try (destruct (res_ok status));
    cbn [negb fst snd]; try done.
  intros _. destruct save_ok; cbn [snd];
    apply list_elem_of_further, list_elem_of_here.
Qed.

Lemma postGameEmbed_steps channelId entry text_based answer s :
  s ∈ postGameEmbed channelId entry text_based answer →
  s = FetchDetails (appid entry) ∨ ∃ e, s = SendEmbed channelId e.
Proof.
  unfold postGameEmbed. destruct text_based; cbn [negb].
  - destruct (fetchSteamDetails _ _); rewrite ?elem_of_cons, elem_of_nil.
    + intros [-> | [-> | []]]; eauto.
    + intros [-> | []]. eauto.
  - intros H. by apply elem_of_nil in H.
Qed.

(** The outcome of the command, case by case. *)
Lemma wishlist_command_cases cfg st channel gameName username w :
  let out := wishlist_command cfg st channel gameName username w in
  let s := searchSteamGame (steamCache st) gameName (search_answer w) (cache_saved w) in
  let st1 := with_cache st s.1.2 in
  let entry g := {| entry_name := sr_name g; appid := sr_appid g; suggester := username |} in
  (channel ≠ SUBMISSION_CHANNEL_ID cfg ∧
   out = {| out_store := st; out_trace := [Reply WrongChannel true] |}) ∨
  (chosen st gameName w = None ∧
   out = {| out_store := st1; out_trace := s.2 ++ [Reply NotFound true] |}) ∨
  (∃ g c, chosen st gameName w = Some g ∧
     (c = NoDetails ∨ c = UnknownType ∨ c = Duplicate) ∧
     out = {| out_store := st1;
              out_trace := (s.2 ++ [FetchDetails (sr_appid g)]) ++ [Reply c true] |}) ∨
  (∃ g d, chosen st gameName w = Some g ∧
     fetchSteamDetails (sr_appid g) (details_answer w) = Some d ∧
     getGameType (d_categories d) = Single ∧
     has_appid (sr_appid g) (singleList st) = false ∧
     out = {| out_store := {| singleList := singleList st ++ [entry g];
                              multiList := multiList st; steamCache := s.1.2 |};
              out_trace := (s.2 ++ [FetchDetails (sr_appid g)])
                ++ postGameEmbed (WISHLIST_SINGLE_CHANNEL_ID cfg) (entry g)
                     (display_text_based w) (embed_details_answer w)
                ++ [] ++ [SaveLists; Reply ThumbsUp true] |}) ∨
  (∃ g d, chosen st gameName w = Some g ∧
     fetchSteamDetails (sr_appid g) (details_answer w) = Some d ∧
     getGameType (d_categories d) = Multi ∧
     has_appid (sr_appid g) (multiList st) = false ∧
     out = {| out_store := {| singleList := singleList st;
                              multiList := multiList st ++ [entry g];
                              steamCache := s.1.2 |};
              out_trace := (s.2 ++ [FetchDetails (sr_appid g)])
                ++ [] ++ postGameEmbed (WISHLIST_MULTI_CHANNEL_ID cfg) (entry g)
                     (display_text_based w) (embed_details_answer w)
                ++ [SaveLists; Reply ThumbsUp true] |}).
Proof.
  cbv zeta. unfold wishlist_command, chosen.
  destruct (bool_decide_reflect (channel = SUBMISSION_CHANNEL_ID cfg)) as [Hch | Hch];
    cbn [negb]; [| by left].
  right.
  destruct (searchSteamGame _ _ _ _) as [[r c1] t1]. cbn [fst snd].
  destruct (pick_match gameName r) as [g|]; [| by left].
  right.
  destruct (fetchSteamDetails _ _) as [d|] eqn:Hd;
    [| left; exists g, NoDetails; eauto].
  destruct (getGameType (d_categories d)) eqn:Hty.
  - unfold dup, with_cache; cbn [singleList multiList steamCache appid].
    destruct (has_appid (sr_appid g) (singleList st)) eqn:Hp.
    + left. exists g, Duplicate. eauto.
    + right. left. by exists g, d.
  - unfold dup, with_cache; cbn [singleList multiList steamCache appid].
    destruct (has_appid (sr_appid g) (multiList st)) eqn:Hp.
    + left. exists g, Duplicate. eauto.
    + right. right. by exists g, d.
  - by apply getGameType_not_both in Hty.
  - left. exists g, UnknownType. eauto.
Qed.

Lemma not_reply_in_search (cache : gmap jsstring (list SearchResult)) q answer save_ok c e :
  Reply c e ∉ (searchSteamGame cache q answer save_ok).2.
Proof. intros H. apply search_trace_steps in H as [H | [H | H]]; done. Qed.

Lemma not_reply_in_post channelId entry text_based answer c e :
  Reply c e ∉ postGameEmbed channelId entry text_based answer.
Proof. intros H. apply postGameEmbed_steps in H as [H | [e' H]]; done. Qed.

(** The steps of the command on a run on which every call returns: one
    reply, at the end. *)
Lemma wishlist_command_trace_shape cfg st channel gameName username w :
  ∃ t c,
    out_trace (wishlist_command cfg st channel gameName username w) = t ++ [Reply c true] ∧
    (∀ c' e', Reply c' e' ∉ t) ∧
    (c = ThumbsUp → last t = Some SaveLists) ∧
    (c ≠ ThumbsUp → (SaveLists ∉ t) ∧ ∀ ch em, SendEmbed ch em ∉ t).
Proof.
  pose proof (not_reply_in_search (steamCache st) gameName (search_answer w) (cache_saved w))
    as Hs.
  pose proof (search_trace_steps (steamCache st) gameName (search_answer w) (cache_saved w))
    as Hsteps.
  destruct (wishlist_command_cases cfg st channel gameName username w)
    as [[_ H] | [[_ H] | [(g & c & _ & Hc & H) | [(g & d & _ & _ & _ & _ & H)
       | (g & d & _ & _ & _ & _ & H)]]]]; rewrite H; cbn [out_trace].
  - exists [], WrongChannel. split; [reflexivity |].
    split; [intros c' e' H'; by apply elem_of_nil in H' |]. split; [done |].
    intros _. split; [| intros ch em]; intros H'; by apply elem_of_nil in H'.
  - eexists _, NotFound. split; [reflexivity |]. split; [apply Hs |]. split; [done |].
    intros _. split; [| intros ch em]; intros H'; apply Hsteps in H' as [? | [? | ?]]; done.
  - eexists _, c. split; [reflexivity |]. split; [| split].
    + intros c' e' H'.
      apply elem_of_app in H' as [H' | H']; [by apply Hs in H' |].
      by apply list_elem_of_singleton in H'.
    + intros ->. destruct Hc as [? | [? | ?]]; done.
    + intros _. split; [| intros ch em]; intros H';
        (apply elem_of_app in H' as [H' | H'];
         [apply Hsteps in H' as [? | [? | ?]]; done
         | by apply list_elem_of_singleton in H']).
  - match goal with
    | |- ∃ t c, ?a ++ ?b ++ [] ++ [SaveLists; _] = _ ∧ _ =>
      exists (a ++ b ++ [SaveLists]), ThumbsUp
    end.
    split; [by rewrite <- !app_assoc |]. split; [| split; [| done]].
    + intros c' e' H'. rewrite !elem_of_app in H'.
      destruct H' as [[H' | H'] | [H' | H']];
        [by apply Hs in H' | by apply list_elem_of_singleton in H'
        | by apply not_reply_in_post in H' | by apply list_elem_of_singleton in H'].
    + intros _. by rewrite !last_app.
  - match goal with
    | |- ∃ t c, ?a ++ [] ++ ?b ++ [SaveLists; _] = _ ∧ _ =>
      exists (a ++ b ++ [SaveLists]), ThumbsUp
    end.
    split; [by rewrite <- !app_assoc |]. split; [| split; [| done]].
    + intros c' e' H'. rewrite !elem_of_app in H'.
      destruct H' as [[H' | H'] | [H' | H']];
        [by apply Hs in H' | by apply list_elem_of_singleton in H'
        | by apply not_reply_in_post in H' | by apply list_elem_of_singleton in H'].
    + intros _. by rewrite !last_app.
Qed.

Lemma reply_position (t t1 t2 : list step) (c c' : reply_content) (e : bool) :
  (∀ c0 e0, Reply c0 e0 ∉ t) →
  t ++ [Reply c true] = t1 ++ Reply c' e :: t2 →
  t1 = t ∧ c' = c ∧ e = true ∧ t2 = [].
Proof.
  revert t1. induction t as [|x t IH]; intros t1 Hno Heq.
  - destruct t1 as [|y t1]; cbn in Heq.
    + by injection Heq as <- <- <-.
    + injection Heq as _ Heq. by destruct t1.
  - destruct t1 as [|y t1]; cbn in Heq.
    + injection Heq as -> _. exfalso. apply (Hno c' e). apply list_elem_of_here.
    + injection Heq as <- Heq.
      destruct (IH t1) as (-> & -> & -> & ->); [| done | done].
      intros c0 e0 Hin. apply (Hno c0 e0). by apply list_elem_of_further.
Qed.

(** X11: the [wishlist] command replies at most once, ephemerally, and
    makes no call after its reply, whatever the channel, the query and the
    answers of the store API are, and wherever the run stops: of the steps
    up to any point of the run, a reply can only be the last one.  A
    rejection is preceded by no save of the lists and by no announcement;
    the acknowledgement comes directly after the save of the lists. *)
Theorem wishlist_command_reply_is_last (cfg : config) (st : store)
    (channel : option jsstring) (gameName username : jsstring) (w : submission_world)
    (steps t1 t2 : list step) (c : reply_content) (e : bool) :
  steps `prefix_of` out_trace (wishlist_command cfg st channel gameName username w) →
  steps = t1 ++ Reply c e :: t2 →
  t2 = [] ∧ e = true ∧
  steps = out_trace (wishlist_command cfg st channel gameName username w) ∧
  (∀ c' e', Reply c' e' ∉ t1) ∧
  (c = ThumbsUp → last t1 = Some SaveLists) ∧
  (c ≠ ThumbsUp → (SaveLists ∉ t1) ∧ ∀ ch em, SendEmbed ch em ∉ t1).
Proof.
  intros [k Hk] ->.
  destruct (wishlist_command_trace_shape cfg st channel gameName username w)
    as (t & c0 & Ht & Hno & Hup & Hrej).
  rewrite Ht in Hk. rewrite <- app_assoc in Hk. cbn [app] in Hk.
  destruct (reply_position t t1 (t2 ++ k) c0 c e Hno Hk) as (-> & -> & -> & Hnil).
  apply app_eq_nil in Hnil as [-> ->]. rewrite Ht. done.
Qed.

(** X12: a submission that is acknowledged has put one new entry, with the
    chosen candidate's name and identifier and the submitter's name, at the
    end of the collection of its type; that collection had no entry with
    the identifier, the other collection is unchanged, and the lists have
    been saved. *)
Theorem acknowledged_submission_is_appended (cfg : config) (st : store)
    (channel : option jsstring) (gameName username : jsstring) (w : submission_world) :
  let out := wishlist_command cfg st channel gameName username w in
  final_step out = Some (Reply ThumbsUp true) →
  ∃ g d,
    chosen st gameName w = Some g ∧
    fetchSteamDetails (sr_appid g) (details_answer w) = Some d ∧
    SaveLists ∈ out_trace out ∧
    let entry := {| entry_name := sr_name g; appid := sr_appid g; suggester := username |} in
    (getGameType (d_categories d) = Single ∧
     ¬ present (sr_appid g) (singleList st) ∧
     singleList (out_store out) = singleList st ++ [entry] ∧
     multiList (out_store out) = multiList st) ∨
    (getGameType (d_categories d) = Multi ∧
     ¬ present (sr_appid g) (multiList st) ∧
     multiList (out_store out) = multiList st ++ [entry] ∧
     singleList (out_store out) = singleList st).
Proof.
  cbv zeta. unfold final_step.
  destruct (wishlist_command_cases cfg st channel gameName username w)
    as [[_ ->] | [[_ ->] | [(g & c & _ & Hc & ->) | [(g & d & Hg & Hd & Hty & Hp & ->)
       | (g & d & Hg & Hd & Hty & Hp & ->)]]]]; cbn [out_trace out_store].
  - done.
  - rewrite last_snoc. done.
  - rewrite last_snoc. intros [= ->]. destruct Hc as [? | [? | ?]]; done.
  - intros _. exists g, d. split; [done |]. split; [done |]. split.
    + rewrite !elem_of_app. right. right. right. apply list_elem_of_here.
    + left. split; [done |]. split; [| done].
      rewrite <- has_appid_spec. by rewrite Hp.
  - intros _. exists g, d. split; [done |]. split; [done |]. split.
    + rewrite !elem_of_app. right. right. right. apply list_elem_of_here.
    + right. split; [done |]. split; [| done].
      rewrite <- has_appid_spec. by rewrite Hp.
Qed.

(** ** Invariants over sequences of events *)

Lemma unique_ids_snoc (l : list WishlistEntry) (entry : WishlistEntry) :
  unique_ids l → has_appid (appid entry) l = false → unique_ids (l ++ [entry]).
Proof.
  unfold unique_ids. intros Hl Hp. rewrite map_app. apply NoDup_app.
  split; [done |]. split; [| apply NoDup_singleton].
  intros id Hin Hid. apply list_elem_of_singleton in Hid. subst id.
  apply list_elem_of_fmap in Hin as (e & He & Hin).
  assert (Htrue : has_appid (appid entry) l = true).
  { apply has_appid_spec. by exists e. }
  congruence.
Qed.

Lemma unique_ids_remove (id : Z) (l : list WishlistEntry) :
  unique_ids l → unique_ids (remove_appid id l).
Proof.
  unfold unique_ids, remove_appid. induction l as [|e l IH]; [done |]. cbn.
  intros Hl. apply NoDup_cons in Hl as [Hnotin Hl].
  destruct (negb (appid e =? id)%Z); [| by apply IH]. cbn.
  apply NoDup_cons. split; [| by apply IH].
  intros Hin. apply Hnotin.
  apply list_elem_of_fmap in Hin as (e' & He' & Hin).
  apply list_elem_of_fmap. exists e'. split; [done |].
  apply list_elem_of_In, filter_In in Hin as [Hin _]. by apply list_elem_of_In.
Qed.

Lemma interactionCreate_cases cfg st i w :
  (∃ channel game username,
     interactionCreate cfg st i w = wishlist_command cfg st channel game username w) ∨
  (singleList (out_store (interactionCreate cfg st i w)) = singleList st ∧
   multiList (out_store (interactionCreate cfg st i w)) = multiList st ∧
   (steamCache (out_store (interactionCreate cfg st i w)) ≠ steamCache st →
    SaveCache ∈ out_trace (interactionCreate cfg st i w))).
Proof.
  destruct i as [focused | commandName channel game username |]; cbn [interactionCreate].
  - right. unfold autocomplete.
    pose proof (search_saves_changes (steamCache st) focused (search_answer w) (cache_saved w))
      as Hsave.
    destruct (searchSteamGame _ _ _ _) as [[r c1] t1]. cbn [fst snd] in *.
    cbn [out_store out_trace with_cache singleList multiList steamCache].
    split; [done |]. split; [done |]. intros Hne. apply elem_of_app. left. by apply Hsave.
  - destruct (str_eqb commandName (lit "wishlist")); cbn [negb]; [left; eauto |].
    right. by cbn.
  - right. by cbn.
Qed.

Lemma messageReactionAdd_store cfg st msg user create_ok :
  (out_store (messageReactionAdd cfg st msg user create_ok) = st) ∨
  ∃ e id, head (embeds msg) = Some e ∧ embed_appid (Some e) = Some id ∧
          out_store (messageReactionAdd cfg st msg user create_ok) = removeByAppid id st ∧
          SaveLists ∈ out_trace (messageReactionAdd cfg st msg user create_ok).
Proof.
  unfold messageReactionAdd. destruct (guild msg) as [g|]; [| by left].
  destruct (user_bot user); [by left |].
  destruct (resolve_members g) as [members t0].
  destruct (_ <=? _)%nat; [| by left].
  destruct (head (embeds msg)) as [e|]; [| by left].
  destruct (embed_appid (Some e)) as [id|] eqn:Hid; [| by left].
  right. exists e, id. cbn [out_store out_trace]. split; [done |]. split; [done |].
  split; [done |]. rewrite !elem_of_app. right. left. apply list_elem_of_here.
Qed.

Lemma handle_keeps_unique_ids cfg st ev :
  unique_ids (singleList st) → unique_ids (multiList st) →
  unique_ids (singleList (out_store (handle cfg st ev))) ∧
  unique_ids (multiList (out_store (handle cfg st ev))).
Proof.
  intros Hs Hm. destruct ev as [i w | msg user create_ok]; cbn [handle].
  - destruct (interactionCreate_cases cfg st i w)
      as [(channel & game & username & ->) | (-> & -> & _)]; [| done].
    destruct (wishlist_command_cases cfg st channel game username w)
      as [[_ ->] | [[_ ->] | [(g & c & _ & _ & ->) | [(g & d & _ & _ & _ & Hp & ->)
         | (g & d & _ & _ & _ & Hp & ->)]]]];
      cbn [out_store with_cache singleList multiList]; try done.
    + split; [| done]. by apply unique_ids_snoc.
    + split; [done |]. by apply unique_ids_snoc.
  - destruct (messageReactionAdd_store cfg st msg user create_ok)
      as [-> | (e & id & _ & _ & -> & _)]; [done |].
    cbn [removeByAppid singleList multiList]. split; by apply unique_ids_remove.
Qed.

(** X13: if no identifier occurs twice in the single collection nor twice
    in the multi collection, this is still so after every sequence of
    events. *)
Theorem unique_ids_are_kept (cfg : config) (st : store) (evs : list event) :
  unique_ids (singleList st) → unique_ids (multiList st) →
  unique_ids (singleList (run cfg st evs)) ∧ unique_ids (multiList (run cfg st evs)).
Proof.
  revert st. unfold run.
  induction evs as [|ev evs IH]; intros st Hs Hm; [done |]. cbn [fold_left].
  destruct (handle_keeps_unique_ids cfg st ev Hs Hm) as [Hs' Hm']. by apply IH.
Qed.

(** X14: a handler that returns with a changed collection has called
    [saveLists], and one that returns with a changed cache has called
    [saveCache]. *)
Theorem changes_are_saved (cfg : config) (st : store) (ev : event) :
  (singleList (out_store (handle cfg st ev)) ≠ singleList st ∨
   multiList (out_store (handle cfg st ev)) ≠ multiList st →
   SaveLists ∈ out_trace (handle cfg st ev)) ∧
  (steamCache (out_store (handle cfg st ev)) ≠ steamCache st →
   SaveCache ∈ out_trace (handle cfg st ev)).
Proof.
  destruct ev as [i w | msg user create_ok]; cbn [handle].
  - destruct (interactionCreate_cases cfg st i w)
      as [(channel & game & username & ->) | (-> & -> & Hc)];
      [| split; [intros [H | H]; done | done]].
    pose proof (search_saves_changes (steamCache st) game (search_answer w) (cache_saved w))
      as Hsave.
    destruct (wishlist_command_cases cfg st channel game username w)
      as [[_ ->] | [[_ ->] | [(g & c & _ & _ & ->) | [(g & d & _ & _ & _ & Hp & ->)
         | (g & d & _ & _ & _ & Hp & ->)]]]];
      cbn [out_store out_trace with_cache singleList multiList steamCache].
    + split; [intros [H | H]; done | done].
    + split; [intros [H | H]; done |]. intros H. apply elem_of_app. left. by apply Hsave.
    + split; [intros [H | H]; done |]. intros H. rewrite !elem_of_app. left. left.
      by apply Hsave.
    + split.
      * intros _. rewrite !elem_of_app. right. right. right. apply list_elem_of_here.
      * intros H. rewrite !elem_of_app. left. left. by apply Hsave.
    + split.
      * intros _. rewrite !elem_of_app. right. right. right. apply list_elem_of_here.
      * intros H. rewrite !elem_of_app. left. left. by apply Hsave.
  - split.
    + destruct (messageReactionAdd_store cfg st msg user create_ok)
        as [-> | (e & id & _ & _ & _ & Hsaved)]; [intros [H | H]; done | done].
    + intros H. by rewrite messageReactionAdd_cache in H.
Qed.

Lemma postGameEmbed_link channelId entry text_based answer c e :
  SendEmbed c e ∈ postGameEmbed channelId entry text_based answer →
  url e = Some (app_url (appid entry)).
Proof.
  unfold postGameEmbed. destruct text_based; cbn [negb];
    [| intros H; by apply elem_of_nil in H].
  destruct (fetchSteamDetails (appid entry) answer) as [d|] eqn:Hd;
    [| intros H; apply list_elem_of_singleton in H; done].
  intros H. apply elem_of_cons in H as [H | H]; [done |].
  apply list_elem_of_singleton in H. injection H as _ ->. cbn [url].
  destruct answer as [|[game|]]; try done. by injection Hd as <-.
Qed.

(** ** From the submission to the completion *)

(** X15: when a submission of a game with an identifier from 0 to 2^53 is
    acknowledged, the entry is in the store and the link of every embed the
    command has sent carries the identifier; a later reaction that reaches
    the quorum on a message with that embed deletes the message and leaves
    no entry with the identifier in either collection. *)
Theorem announced_entry_is_completed (cfg : config) (st : store)
    (channel : option jsstring) (gameName username : jsstring) (w : submission_world)
    (g : SearchResult) (c : option jsstring) (e : Embed)
    (msg : Message) (gd : Guild) (user : User) (create_ok : bool) :
  let out1 := wishlist_command cfg st channel gameName username w in
  let out2 := messageReactionAdd cfg (out_store out1) msg user create_ok in
  final_step out1 = Some (Reply ThumbsUp true) →
  chosen st gameName w = Some g →
  (0 ≤ sr_appid g ≤ 2 ^ 53)%Z →
  SendEmbed c e ∈ out_trace out1 →
  guild msg = Some gd → user_bot user = false →
  head (embeds msg) = Some e →
  (totalHumans (resolve_members gd).1 ≤ size (uniqueReactors (reactions msg)))%nat →
  (present (sr_appid g) (singleList (out_store out1)) ∨
   present (sr_appid g) (multiList (out_store out1))) ∧
  embed_appid (Some e) = Some (sr_appid g) ∧
  DeleteMessage ∈ out_trace out2 ∧
  ¬ present (sr_appid g) (singleList (out_store out2)) ∧
  ¬ present (sr_appid g) (multiList (out_store out2)).
Proof.
  cbv zeta. intros Hack Hg Hid Hsent Hgd Hu He Hq.
  pose proof (messageReactionAdd_guarded cfg
                (out_store (wishlist_command cfg st channel gameName username w))
                msg user create_ok gd Hgd Hu) as Hreact.
  cbv zeta in Hreact. apply Nat.leb_le in Hq. rewrite Hq, He in Hreact.
  pose proof (search_trace_steps (steamCache st) gameName (search_answer w) (cache_saved w)
                (SendEmbed c e)) as Hs.
  unfold final_step in Hack.
  assert (Hstored :
    (present (sr_appid g) (singleList (out_store (wishlist_command cfg st channel gameName username w))) ∨
     present (sr_appid g) (multiList (out_store (wishlist_command cfg st channel gameName username w)))) ∧
    url e = Some (app_url (sr_appid g))).
  { destruct (wishlist_command_cases cfg st channel gameName username w)
      as [[_ H] | [[_ H] | [(g' & c' & _ & Hc & H) | [(g' & d & Hg' & _ & _ & _ & H)
         | (g' & d & Hg' & _ & _ & _ & H)]]]]; rewrite H in *;
      cbn [out_trace out_store singleList multiList] in *.
    - done.
    - rewrite last_snoc in Hack. done.
    - rewrite last_snoc in Hack. injection Hack as ->. destruct Hc as [? | [? | ?]]; done.
    - assert (g' = g) as -> by congruence. split.
      + left. eexists. split; [apply elem_of_app; right; apply list_elem_of_here | done].
      + rewrite !elem_of_app in Hsent.
        repeat match type of Hsent with
               | _ ∨ _ => destruct Hsent as [Hsent | Hsent]
               end;
          first [ by apply elem_of_nil in Hsent
                | by apply postGameEmbed_link in Hsent
                | by apply list_elem_of_singleton in Hsent
                | apply Hs in Hsent as [? | [? | ?]]; done
                | apply elem_of_cons in Hsent as [? | Hsent];
                  [done | by apply list_elem_of_singleton in Hsent] ].
    - assert (g' = g) as -> by congruence. split.
      + right. eexists. split; [apply elem_of_app; right; apply list_elem_of_here | done].
      + rewrite !elem_of_app in Hsent.
        repeat match type of Hsent with
               | _ ∨ _ => destruct Hsent as [Hsent | Hsent]
               end;
          first [ by apply elem_of_nil in Hsent
                | by apply postGameEmbed_link in Hsent
                | by apply list_elem_of_singleton in Hsent
                | apply Hs in Hsent as [? | [? | ?]]; done
                | apply elem_of_cons in Hsent as [? | Hsent];
                  [done | by apply list_elem_of_singleton in Hsent] ]. }
  destruct Hstored as [Hstored Hurl].
  pose proof (embed_appid_store_page _ _ Hid Hurl) as Happ.
  rewrite Happ in Hreact. destruct Hreact as (Hdel & Hst & _).
  split; [done |]. split; [done |]. split; [done |].
  rewrite Hst. split; apply remove_appid_absent.
Qed.

(** ** The completion monitor *)

Lemma remove_appid_sublist (id : Z) (l : list WishlistEntry) :
  remove_appid id l `sublist_of` l.
Proof.
  unfold remove_appid. induction l as [|e l IH]; cbn; [constructor |].
  destruct (negb (appid e =? id)%Z); by constructor.
Qed.

(** X16: a reaction never adds an entry and never touches the cache: the
    collections it leaves are the old ones with entries taken out, in the
    old order; and when it does not delete the message it leaves the whole
    store as it was and does nothing but, at most, log the warning of the
    failed member fetch. *)
Theorem reaction_only_removes (cfg : config) (st : store) (msg : Message)
    (user : User) (create_ok : bool) :
  let out := messageReactionAdd cfg st msg user create_ok in
  singleList (out_store out) `sublist_of` singleList st ∧
  multiList (out_store out) `sublist_of` multiList st ∧
  steamCache (out_store out) = steamCache st ∧
  (DeleteMessage ∉ out_trace out →
   out_store out = st ∧ ∀ s, s ∈ out_trace out → s = Warn).
Proof.
  cbv zeta. split; [| split; [| split]].
  - destruct (messageReactionAdd_store cfg st msg user create_ok)
      as [-> | (e & id & _ & _ & -> & _)]; [done | apply remove_appid_sublist].
  - destruct (messageReactionAdd_store cfg st msg user create_ok)
      as [-> | (e & id & _ & _ & -> & _)]; [done | apply remove_appid_sublist].
  - apply messageReactionAdd_cache.
  - unfold messageReactionAdd. destruct (guild msg) as [g|];
      [| intros _; split; [done | intros s H; by apply elem_of_nil in H]].
    destruct (user_bot user);
      [intros _; split; [done | intros s H; by apply elem_of_nil in H] |].
    assert (Ht0 : ∀ x, x ∈ (resolve_members g).2 → x = Warn).
    { unfold resolve_members. destruct (members_fetch g); cbn [snd]; intros x Hx.
      - by apply elem_of_nil in Hx.
      - by apply list_elem_of_singleton in Hx. }
    destruct (resolve_members g) as [members t0]. cbn [snd] in Ht0.
    destruct (_ <=? _)%nat; [| intros _; by split].
    intros Hnot. exfalso. apply Hnot.
    destruct (head (embeds msg)) as [e|];
      [destruct (embed_appid (Some e)) |]; cbn [out_trace];
      rewrite !elem_of_app;
      first [ do 3 right; apply list_elem_of_here | right; apply list_elem_of_here ].
Qed.

(** X17: the quorum is not lost by further reactions: in the same guild,
    if the handler deletes the message for some reactions, it also deletes
    it when the non-bot reactors are these and more. *)
Theorem quorum_survives_more_reactions (cfg : config) (st st' : store)
    (msg msg' : Message) (user user' : User) (create_ok create_ok' : bool) (g : Guild) :
  guild msg = Some g → guild msg' = Some g →
  user_bot user = false → user_bot user' = false →
  reactors_union (reactions msg) ⊆ reactors_union (reactions msg') →
  DeleteMessage ∈ out_trace (messageReactionAdd cfg st msg user create_ok) →
  DeleteMessage ∈ out_trace (messageReactionAdd cfg st' msg' user' create_ok').
Proof.
  intros Hg Hg' Hu Hu' Hsub Hdel.
  pose proof (messageReactionAdd_guarded cfg st msg user create_ok g Hg Hu) as H.
  pose proof (messageReactionAdd_guarded cfg st' msg' user' create_ok' g Hg' Hu') as H'.
  cbv zeta in H, H'.
  destruct (Nat.leb_spec (totalHumans (resolve_members g).1)
              (size (uniqueReactors (reactions msg)))) as [Hle | Hlt];
    [| by apply H in Hdel].
  assert (Hsize : (size (uniqueReactors (reactions msg))
                   ≤ size (uniqueReactors (reactions msg')))%nat).
  { rewrite !uniqueReactors_spec. by apply subseteq_size. }
  assert (Hq : (totalHumans (resolve_members g).1
                <=? size (uniqueReactors (reactions msg')))%nat = true)
    by (apply Nat.leb_le; lia).
  rewrite Hq in H'. apply H'.
Qed.

(** X18: a voice channel is requested only by a reaction of a non-bot
    user in a guild that reaches the quorum, for an identifier that is in
    the multi collection, and when the guild has no voice channel with the
    name the handler looks for; its parent is the configured category and
    its name is the title-cased title cut to 90 code units, or "Game
    Voice" when the embed has no title or an empty one: never empty. *)
Theorem voice_channel_only_for_multi (cfg : config) (st : store) (msg : Message)
    (user : User) (create_ok : bool) (name : jsstring) (parent : option jsstring) :
  CreateVoice name parent ∈ out_trace (messageReactionAdd cfg st msg user create_ok) →
  ∃ g e id,
    guild msg = Some g ∧ user_bot user = false ∧
    (totalHumans (resolve_members g).1 ≤ size (uniqueReactors (reactions msg)))%nat ∧
    head (embeds msg) = Some e ∧
    embed_appid (Some e) = Some id ∧
    present id (multiList st) ∧
    existing_voice (channels_cache g) (capitalizedName e) = None ∧
    parent = GAME_VOICE_CATEGORY_ID cfg ∧
    name = or_else (capitalizedName e) (lit "Game Voice") ∧
    name ≠ [] ∧ (length name ≤ 90)%nat.
Proof.
  unfold messageReactionAdd. destruct (guild msg) as [g|];
    [| intros H; by apply elem_of_nil in H].
  destruct (user_bot user); [intros H; by apply elem_of_nil in H |].
  pose proof (resolve_members_warns g) as Ht0.
  destruct (resolve_members g) as [members t0] eqn:Hrm. cbn [snd] in Ht0.
  destruct (Nat.leb_spec (totalHumans members) (size (uniqueReactors (reactions msg))))
    as [Hq | _]; [| intros H; by apply Ht0 in H].
  destruct (head (embeds msg)) as [e|].
  2: { cbn [out_trace]. intros H. apply elem_of_app in H as [H | H];
         [by apply Ht0 in H | by apply list_elem_of_singleton in H]. }
  destruct (embed_appid (Some e)) as [id|] eqn:Hid; cbn [out_trace].
  2: { intros H. apply elem_of_app in H as [H | H];
         [by apply Ht0 in H | by apply list_elem_of_singleton in H]. }
  rewrite !elem_of_app. intros [H | [H | [H | H]]].
  - by apply Ht0 in H.
  - by apply list_elem_of_singleton in H.
  - destruct (has_appid id (multiList st)) eqn:Hp; [| by apply elem_of_nil in H].
    exists g, e, id. rewrite Hrm. cbn [fst].
    split; [done |]. split; [done |]. split; [done |].
    split; [done |]. split; [done |].
    split; [by apply has_appid_spec |].
    unfold voice_channel in H. destruct (existing_voice _ _).
    + by apply list_elem_of_singleton in H.
    + split; [done |]. rewrite elem_of_app in H. destruct H as [H | H].
      * apply elem_of_cons in H as [H | H]; [done |].
        apply list_elem_of_singleton in H. injection H as -> ->.
        split; [done |]. split; [done |].
        destruct (capitalizedName e) as [[|c s]|] eqn:Hcap; cbn [or_else];
          try (split; [done | cbn; lia]).
        split; [done |]. by apply (capitalizedName_length e).
      * destruct create_ok; [by apply elem_of_nil in H |].
        by apply list_elem_of_singleton in H.
  - by apply list_elem_of_singleton in H.
Qed.

Lemma replace_words_at_space (f : jsstring → jsstring) (s1 s2 : jsstring) (c : N) :
  is_space c = true →
  ∀ cur, replace_words f cur (s1 ++ c :: s2)
         = replace_words f cur s1 ++ c :: replace_words f None s2.
Proof.
  intros Hc. assert (Hw : is_word c = false).
  { unfold is_space, is_word, is_digit in *.
    repeat match goal with
           | H : (_ || _) = true |- _ => apply orb_true_iff in H as [H | H]
           | H : (_ && _) = true |- _ => apply andb_true_iff in H as [? ?]
           | H : (_ =? _) = true |- _ => apply N.eqb_eq in H
           | H : (_ <=? _) = true |- _ => apply N.leb_le in H
           end; subst;
    try reflexivity;
    repeat match goal with
           | |- (_ || _) = false => apply orb_false_iff; split
           | |- (_ && _) = false => apply andb_false_iff
           end;
    repeat first [ left; apply N.leb_gt; lia | right; apply N.leb_gt; lia
                 | apply N.eqb_neq; lia ]. }
  induction s1 as [|a s1 IH]; intros cur.
  - destruct cur as [w|]; cbn [app replace_words]; [by rewrite Hc |]. by rewrite Hw.
  - destruct cur as [w|]; cbn [app replace_words].
    + destruct (is_space a); [by rewrite IH, <- app_assoc | apply IH].
    + destruct (is_word a); [apply IH | by rewrite IH].
Qed.

(** X19: the title is cased word by word: a white-space unit is kept and
    the text on either side of it is cased on its own; a stretch without
    white space that begins with a letter, a digit or "_" is replaced by
    its first unit upper-cased and its remainder lower-cased. *)
Theorem title_is_cased_word_by_word (s1 s2 : jsstring) (c : N) :
  is_space c = true →
  replace_words capitalize None (s1 ++ c :: s2)
    = replace_words capitalize None s1 ++ c :: replace_words capitalize None s2 ∧
  ∀ a w, is_word a = true →
         forallb (fun u => negb (is_space u)) w = true →
         replace_words capitalize None (a :: w) = toUpperCase [a] ++ toLowerCase w.
Proof.
  intros Hc. split; [by apply replace_words_at_space |].
  intros a w Ha Hw. by rewrite replace_words_word.
Qed.

(** ** The autocomplete path *)

(** X20: an autocomplete request changes neither collection.  After the
    search it responds with at most five choices, the names of the first
    search results as label and as value; when the lookup fails there is
    no choice and the cache is unchanged.  When the platform accepts that
    response, it is the only one and the last step; when the platform
    rejects it, the handler responds once more, with no choice, and stops. *)
Theorem autocomplete_suggests_at_most_five (st : store) (focused : jsstring)
    (answer : search_fetch) (save_ok respond_ok : bool) :
  let out := autocomplete st focused answer save_ok respond_ok in
  let found := (searchSteamGame (steamCache st) focused answer save_ok).1.1 in
  singleList (out_store out) = singleList st ∧
  multiList (out_store out) = multiList st ∧
  ∃ t choices,
    out_trace out
      = t ++ Respond choices :: (if respond_ok then [] else [Respond []]) ∧
    t = (searchSteamGame (steamCache st) focused answer save_ok).2 ∧
    (∀ other, Respond other ∉ t) ∧
    (length choices ≤ 5)%nat ∧
    choices = map (λ r, (sr_name r, sr_name r)) (take 5 found) ∧
    (∀ label value, (label, value) ∈ choices →
       label = value ∧ ∃ r, r ∈ found ∧ sr_name r = label) ∧
    (steamCache st !! cacheKey focused = None → lookup_fails answer →
     choices = [] ∧ steamCache (out_store out) = steamCache st).
Proof.
  cbv zeta. unfold autocomplete.
  pose proof (search_trace_steps (steamCache st) focused answer save_ok) as Hsteps.
  assert (Hfail : steamCache st !! cacheKey focused = None → lookup_fails answer →
                  (searchSteamGame (steamCache st) focused answer save_ok).1.1 = [] ∧
                  (searchSteamGame (steamCache st) focused answer save_ok).1.2
                    = steamCache st).
  { intros Hmiss Hf. unfold searchSteamGame. rewrite Hmiss.
    destruct answer as [| |status body]; cbn in Hf; try done.
    destruct Hf as [-> | ->]; cbn [negb]; [done |]. by destruct (res_ok status). }
  destruct (searchSteamGame _ _ _ _) as [[r c1] t1]. cbn [fst snd] in *.
  cbn [out_store out_trace with_cache singleList multiList steamCache].
  split; [done |]. split; [done |].
  exists t1, (map (λ r0, (sr_name r0, sr_name r0)) (take 5 r)).
  split; [done |]. split; [done |]. split; [| split; [| split; [done |split]]].
  - intros other H. apply Hsteps in H as [? | [? | ?]]; done.
  - rewrite length_map, length_take. lia.
  - intros label value Hin. apply list_elem_of_fmap in Hin as (r0 & [= -> ->] & Hin).
    split; [done |]. exists r0. split; [| done].
    apply list_elem_of_lookup in Hin as [i Hi].
    apply lookup_take_Some in Hi as [Hi _]. by eapply list_elem_of_lookup_2.
  - intros Hmiss Hf. destruct (Hfail Hmiss Hf) as [-> ->]. done.
Qed.

(** ** The earlier revision *)

Lemma legacy_top_member (query : jsstring) (items : list store_item) (t : store_item) :
  Legacy.top query items = Some t → t ∈ items.
Proof.
  unfold Legacy.top. destruct (find _ items) as [i|] eqn:Hfind.
  - intros [= <-]. apply find_some in Hfind as [Hin _]. by apply list_elem_of_In.
  - destruct items as [|i rest]; intros [= <-]. apply list_elem_of_here.
Qed.

(** X21: in the earlier revision a search that finds nothing returns
    nothing and leaves the cache as it was, so the next search asks again;
    a search that finds items stores one of them (as a result with its
    link) under the lower-cased, untrimmed query, and every later search
    whose query has the same lower-cased form returns it without a
    request. *)
Theorem legacy_search_caches_finds_only (cache : gmap jsstring SearchResult)
    (q : jsstring) (items : option (list store_item)) :
  cache !! Legacy.cacheKey q = None →
  (items = None ∨ items = Some [] →
   Legacy.searchSteamGame cache q items = (None, cache, [FetchSearch q])) ∧
  ∀ i rest, items = Some (i :: rest) →
    ∃ t, t ∈ i :: rest ∧
         Legacy.searchSteamGame cache q items
           = (Some (to_result t), <[Legacy.cacheKey q := to_result t]> cache,
              [FetchSearch q; SaveCache]) ∧
         ∀ q' items', toLowerCase q' = toLowerCase q →
           Legacy.searchSteamGame (<[Legacy.cacheKey q := to_result t]> cache) q' items'
             = (Some (to_result t), <[Legacy.cacheKey q := to_result t]> cache, []).
Proof.
  intros Hmiss. unfold Legacy.searchSteamGame. rewrite Hmiss. split.
  - intros [-> | ->]; done.
  - intros i rest ->.
    destruct (Legacy.top q (i :: rest)) as [t|] eqn:Htop.
    + exists t. split; [by apply legacy_top_member in Htop |]. split; [done |].
      intros q' items' Hq'. unfold Legacy.cacheKey. rewrite Hq'.
      by rewrite lookup_insert_eq.
    + unfold Legacy.top in Htop. by destruct (find _ _).
Qed.

(** X22: for a game that reaches the duplicate test (its type is not
    'unknown'), the duplicate test of the earlier revision and the current
    one give the same answer; on the type 'both', which [getGameType] never
    returns, the earlier test finds no duplicate. *)
Theorem legacy_duplicate_test_agrees (cats : list jsstring) (st : store)
    (entry : WishlistEntry) :
  getGameType cats ≠ Unknown →
  Legacy.isDuplicate (getGameType cats) st entry = dup (getGameType cats) st entry ∧
  Legacy.isDuplicate Both st entry = false.
Proof.
  intros Hknown. split; [| done].
  pose proof (getGameType_not_both cats) as Hnb.
  destruct (getGameType cats); try done.
  unfold Legacy.isDuplicate, dup. cbn. by rewrite orb_false_r.
Qed.

End Coverage.

(** ** The handlers on the concrete inputs *)

(** The scenario of the specification: Portal 2 has the tag "Co-op", is
    stored in the multi collection only, and is announced in the multi
    display channel with a link that carries its identifier. *)
Example portal2_submitted :
  singleList (out_store (submit_portal2 empty_store portal2_world)) = [] ∧
  multiList (out_store (submit_portal2 empty_store portal2_world))
    = [portal2_entry (lit "alice")] ∧
  steamCache (out_store (submit_portal2 empty_store portal2_world))
    = portal2_cache ∧
  final_step (submit_portal2 empty_store portal2_world) = Some (Reply ThumbsUp true) ∧
  ∃ e, SendEmbed (Some (lit "1003")) e
         ∈ out_trace (submit_portal2 empty_store portal2_world) ∧
       title e = Some (lit "Portal 2") ∧
       embed_appid (Some e) = Some 620%Z.
Proof.
  do 4 (split; [vm_compute; reflexivity |]).
  eexists. split; [| split].
  - vm_compute. do 4 apply list_elem_of_further. apply list_elem_of_here.
  - reflexivity.
  - vm_compute. reflexivity.
Qed.

(** A second submission of Portal 2 is rejected; one that is present in
    the single collection only is not. *)
Example portal2_submitted_twice :
  final_step (submit_portal2 (out_store (submit_portal2 empty_store portal2_world))
                portal2_world)
    = Some (Reply Duplicate true) ∧
  final_step (submit_portal2 portal2_in_single portal2_world)
    = Some (Reply ThumbsUp true).
Proof. split; vm_compute; reflexivity. Qed.

(** Numbers above 2^53: [parseInt] rounds, and the link of the identifier
    10^21 is written in exponent form, from which the completion monitor
    reads 1. *)
Example link_of_large_identifier :
  parseInt (lit "9007199254740993") = 9007199254740992%Z ∧
  number_to_string (2 ^ 64) = lit "18446744073709552000" ∧
  number_to_string (10 ^ 21) = lit "1e+21" ∧
  option_map parseInt (match_app (app_url (10 ^ 21))) = Some 1%Z.
Proof. split; [| split; [| split]]; vm_compute; reflexivity. Qed.

(** An autocomplete request for "portal" whose response the platform
    rejects: the handler responds a second time, with no choice. *)
Example autocomplete_response_rejected :
  out_trace (autocomplete (rt := ascii_runtime) empty_store (lit "portal")
               (search_answer portal2_world) true false)
    = [FetchSearch (lit "portal"); SaveCache;
       Respond [(lit "Portal 2", lit "Portal 2")]; Respond []].
Proof. vm_compute. reflexivity. Qed.

(** Five counted members and four reactors: nothing happens. *)
Example four_of_five :
  totalHumans (rt := ascii_runtime) server_members = 5%nat ∧
  size (uniqueReactors four_reactors) = 4%nat ∧
  react (server [voice "General"]) four_reactors
    = {| out_store := drg_store; out_trace := [] |}.
Proof. repeat split; vm_compute; reflexivity. Qed.

(** Five reactors: the entry leaves the store, the channel "Deep Rock
    Galactic" is created and the announcement is deleted. *)
Example five_of_five :
  react (server [voice "General"]) five_reactors
    = {| out_store := {| singleList := [portal2_entry (lit "bob")]; multiList := [];
                         steamCache := steamCache drg_store |};
         out_trace := [ SaveLists;
                        EnterVoice (Some (lit "Deep Rock Galactic"));
                        CreateVoice (lit "Deep Rock Galactic") (Some (lit "1004"));
                        DeleteMessage ] |}.
Proof. vm_compute. reflexivity. Qed.

(** A voice channel named with the lower-cased name is found, and none is
    created. *)
Example lower_cased_channel_found :
  out_trace (react (server [voice "deep rock galactic"]) five_reactors)
    = [SaveLists; EnterVoice (Some (lit "Deep Rock Galactic")); DeleteMessage].
Proof. vm_compute. reflexivity. Qed.

(** C9: the title "deep rock galactic" gives the name "Deep Rock
    Galactic"; with a voice channel of that very name in the guild, the
    handler still creates a channel "Deep Rock Galactic", because it looks
    for a channel named "deep rock galactic". *)
Theorem voice_channel_created_beside_same_name :
  capitalizedName (rt := ascii_runtime) drg_embed = Some (lit "Deep Rock Galactic") ∧
  (∃ c, c ∈ channels_cache (server [voice "Deep Rock Galactic"]) ∧
        channel_type c = GuildVoice ∧
        ascii_toLowerCase (channel_name c)
          = ascii_toLowerCase (lit "Deep Rock Galactic")) ∧
  out_trace (react (server [voice "Deep Rock Galactic"]) five_reactors)
    = [ SaveLists;
        EnterVoice (Some (lit "Deep Rock Galactic"));
        CreateVoice (lit "Deep Rock Galactic") (Some (lit "1004"));
        DeleteMessage ].
Proof.
  split; [vm_compute; reflexivity |]. split; [| vm_compute; reflexivity].
  exists (voice "Deep Rock Galactic").
  split; [apply list_elem_of_here |]. split; reflexivity.
Qed.

(** *** The theorems at these inputs *)

Lemma quorum_iff_reactors_cover_humans_witness :
  guild (announcement (server []) five_reactors) = Some (server []) ∧
  user_bot (reactor "4") = false ∧
  counts (eligible_human (rt := ascii_runtime)) (resolve_members (server [])).1 5 ∧
  let out := react (server []) five_reactors in
  let quorum := (5 ≤ size (reactors_union five_reactors))%nat in
  (DeleteMessage ∈ out_trace out ↔ quorum) ∧
  (quorum →
   final_step out = Some DeleteMessage ∧
   out_store out
     = match embed_appid (head (embeds (announcement (server []) five_reactors))) with
       | Some id => removeByAppid id drg_store
       | None => drg_store
       end ∧
   ∀ id, embed_appid (head (embeds (announcement (server []) five_reactors))) = Some id →
         SaveLists ∈ out_trace out ∧
         ¬ present id (singleList (out_store out)) ∧
         ¬ present id (multiList (out_store out))) ∧
  (¬ quorum →
   out_store out = drg_store ∧
   out_trace out = (resolve_members (server [])).2 ∧
   SaveLists ∉ out_trace out).
Proof.
  assert (Hcount : counts (eligible_human (rt := ascii_runtime))
                     (resolve_members (server [])).1 5)
    by exact (counts_totalHumans (rt := ascii_runtime) server_members).
  split; [reflexivity |]. split; [reflexivity |]. split; [exact Hcount |].
  exact (quorum_iff_reactors_cover_humans (rt := ascii_runtime) cfg0 drg_store
           (announcement (server []) five_reactors) (reactor "4") true (server []) 5
           eq_refl eq_refl Hcount).
Defined.

Lemma duplicate_checked_in_own_collection_witness :
  Some (lit "1001") = SUBMISSION_CHANNEL_ID cfg0 ∧
  chosen (rt := ascii_runtime) portal2_in_single (lit "portal 2") portal2_world
    = Some (to_result portal2_item) ∧
  fetchSteamDetails (sr_appid (to_result portal2_item)) (details_answer portal2_world)
    = Some portal2_details ∧
  getGameType (rt := ascii_runtime) (d_categories portal2_details) = Multi ∧
  (final_step (submit_portal2 portal2_in_single portal2_world)
     = Some (Reply Duplicate true) ↔
   present (sr_appid (to_result portal2_item)) (multiList portal2_in_single)).
Proof.
  split; [reflexivity |]. split; [vm_compute; reflexivity |].
  split; [vm_compute; reflexivity |]. split; [vm_compute; reflexivity |].
  destruct (duplicate_checked_in_own_collection (rt := ascii_runtime) cfg0
              portal2_in_single (Some (lit "1001")) (lit "portal 2") (lit "alice")
              portal2_world (to_result portal2_item) portal2_details)
    as (_ & Hmulti & _);
    [reflexivity | vm_compute; reflexivity | vm_compute; reflexivity |].
  apply Hmulti. vm_compute. reflexivity.
Defined.

Lemma voice_branch_iff_multi_before_removal_witness :
  (totalHumans (rt := ascii_runtime) (resolve_members (server [])).1
     ≤ size (uniqueReactors five_reactors))%nat ∧
  embed_appid (head (embeds (announcement (server []) five_reactors))) = Some 548430%Z ∧
  ((∃ cap, EnterVoice cap ∈ out_trace (react (server []) five_reactors)) ↔
   present 548430 (multiList drg_store)) ∧
  ¬ present 548430 (singleList (out_store (react (server []) five_reactors))) ∧
  ¬ present 548430 (multiList (out_store (react (server []) five_reactors))).
Proof.
  split; [vm_compute; lia |]. split; [vm_compute; reflexivity |].
  apply (voice_branch_iff_multi_before_removal (rt := ascii_runtime) cfg0 drg_store
           (announcement (server []) five_reactors) (reactor "4") true (server [])
           548430);
    [reflexivity | reflexivity | vm_compute; lia | vm_compute; reflexivity].
Defined.

Lemma empty_result_is_cached_witness :
  first_search.1.1 = [] ∧
  first_search.1.2 !! lit "search:no such game" = Some [] ∧
  ∀ calls answer' save_ok',
    searchSteamGame (rt := ascii_runtime)
      (later_searches (rt := ascii_runtime) first_search.1.2 calls)
      (lit "NO SUCH GAME") answer' save_ok'
    = ([], later_searches (rt := ascii_runtime) first_search.1.2 calls, []).
Proof.
  destruct (empty_result_is_cached (rt := ascii_runtime) ∅ (lit "  No Such Game ")
              (Response 200 (Parsed (Some []))) true) as (Hret & Hstored & Hlater).
  - vm_compute. reflexivity.
  - exists 200, (Some []). repeat split; reflexivity.
  - split; [exact Hret |]. split; [exact Hstored |].
    intros calls answer' save_ok'.
    apply (Hlater calls (lit "NO SUCH GAME") answer' save_ok').
    vm_compute. reflexivity.
Defined.

Lemma failed_lookup_is_not_cached_witness :
  portal2_cache !! cacheKey (rt := ascii_runtime) (lit "Half-Life 3") = None ∧
  searchSteamGame (rt := ascii_runtime) portal2_cache (lit "Half-Life 3") Aborted true
    = ([], portal2_cache, [FetchSearch (lit "half-life 3"); Warn]) ∧
  searchSteamGame (rt := ascii_runtime) portal2_cache (lit "Half-Life 3")
    (Response 503 Unparsable) true
    = ([], portal2_cache, [FetchSearch (lit "half-life 3"); Warn]).
Proof.
  split; [vm_compute; reflexivity |]. split.
  - apply (failed_lookup_is_not_cached (rt := ascii_runtime) portal2_cache
             (lit "Half-Life 3") Aborted true); [vm_compute; reflexivity | exact I].
  - apply (failed_lookup_is_not_cached (rt := ascii_runtime) portal2_cache
             (lit "Half-Life 3") (Response 503 Unparsable) true);
      [vm_compute; reflexivity | left; reflexivity].
Defined.

Lemma failed_submission_changes_nothing_witness :
  fails_at (rt := ascii_runtime) cfg0 drg_store (Some (lit "1001")) (lit "portal 2")
    details_down NoDetails ∧
  final_step (submit_portal2 drg_store details_down) = Some (Reply NoDetails true) ∧
  singleList (out_store (submit_portal2 drg_store details_down)) = singleList drg_store ∧
  multiList (out_store (submit_portal2 drg_store details_down)) = multiList drg_store ∧
  steamCache (out_store (submit_portal2 drg_store details_down))
    !! lit "search:deep rock" = Some [].
Proof.
  assert (Hf : fails_at (rt := ascii_runtime) cfg0 drg_store (Some (lit "1001"))
                 (lit "portal 2") details_down NoDetails).
  { apply (fail_details_transport _ _ _ _ _ (to_result portal2_item));
      [reflexivity | vm_compute; reflexivity | reflexivity]. }
  split; [exact Hf |].
  destruct (failed_submission_changes_nothing (rt := ascii_runtime) cfg0 drg_store
              (Some (lit "1001")) (lit "portal 2") (lit "alice") details_down NoDetails Hf)
    as (Hreply & _ & Hsingle & Hmulti & Hcache).
  split; [exact Hreply |]. split; [exact Hsingle |]. split; [exact Hmulti |].
  apply Hcache. vm_compute. reflexivity.
Defined.

Lemma no_counted_human_one_reaction_witness :
  DeleteMessage ∈ out_trace (messageReactionAdd (rt := ascii_runtime) cfg0 drg_store
                               (announcement bots_only []) (reactor "91") true) ∧
  multiList (out_store (messageReactionAdd (rt := ascii_runtime) cfg0 drg_store
                          (announcement bots_only []) (reactor "91") true)) = [].
Proof.
  destruct (no_counted_human_one_reaction (rt := ascii_runtime) cfg0 drg_store
              (announcement bots_only []) (reactor "91") true bots_only)
    as (Hdel & Hrem); [reflexivity | reflexivity | |].
  - apply totalHumans_zero_excluded. vm_compute. reflexivity.
  - split; [exact Hdel |].
    destruct (Hrem 548430%Z) as (Hst & _); [vm_compute; reflexivity |].
    rewrite Hst. vm_compute. reflexivity.
Defined.

(** *** The further properties at these inputs *)

Lemma successful_search_is_replayed_witness :
  (searchSteamGame (rt := ascii_runtime) ∅ (lit "  Portal 2 ")
     (Response 200 (Parsed (Some [portal2_item]))) false).1.1 = [] ∧
  ∀ calls answer' save_ok',
    let cache' :=
      later_searches (rt := ascii_runtime)
        (searchSteamGame (rt := ascii_runtime) ∅ (lit "  Portal 2 ")
           (Response 200 (Parsed (Some [portal2_item]))) false).1.2 calls in
    searchSteamGame (rt := ascii_runtime) cache' (lit "PORTAL 2") answer' save_ok'
      = ([to_result portal2_item], cache', []).
Proof.
  destruct (successful_search_is_replayed (rt := ascii_runtime) ∅ (lit "  Portal 2 ")
              (Response 200 (Parsed (Some [portal2_item]))) false [to_result portal2_item])
    as (Hret & _ & Hlater).
  - vm_compute. reflexivity.
  - exists 200, (Some [portal2_item]). repeat split; reflexivity.
  - split; [exact Hret |]. intros calls answer' save_ok'.
    apply (Hlater calls (lit "PORTAL 2") answer' save_ok'). vm_compute. reflexivity.
Defined.

Lemma drg_store_cache_ok : cache_ok (steamCache drg_store).
Proof.
  intros k rs Hk. unfold drg_store in Hk. cbn [steamCache] in Hk.
  apply lookup_singleton_Some in Hk as [_ <-].
  split; [cbn; lia | constructor].
Defined.

Lemma cache_stays_well_formed_witness :
  cache_ok (steamCache drg_store) ∧
  cache_ok (steamCache (run (rt := ascii_runtime) cfg0 drg_store session)).
Proof.
  split; [exact drg_store_cache_ok |].
  destruct (cache_stays_well_formed (rt := ascii_runtime) cfg0 drg_store drg_store_cache_ok)
    as [_ Hrun].
  apply Hrun.
Defined.

Lemma cache_entries_are_permanent_witness :
  steamCache drg_store !! lit "search:deep rock" = Some [] ∧
  steamCache (run (rt := ascii_runtime) cfg0 drg_store session) !! lit "search:deep rock"
    = Some [].
Proof.
  split; [vm_compute; reflexivity |].
  apply (cache_entries_are_permanent (rt := ascii_runtime) cfg0 drg_store session).
  vm_compute. reflexivity.
Defined.

Lemma store_page_link_round_trip_witness :
  url portal2_embed = Some (app_url 620) ∧ embed_appid (Some portal2_embed) = Some 620%Z.
Proof.
  split; [reflexivity |].
  apply (store_page_link_round_trip 620 portal2_embed); [lia | reflexivity].
Defined.

Lemma negative_id_link_is_not_read_witness :
  url negative_embed = Some (app_url (-5)) ∧ embed_appid (Some negative_embed) = None.
Proof.
  split; [reflexivity |].
  apply (negative_id_link_is_not_read (-5) negative_embed); [lia | reflexivity].
Defined.

Lemma wishlist_command_reply_is_last_witness :
  out_trace (submit_portal2 empty_store details_down)
    `prefix_of` out_trace (submit_portal2 empty_store details_down) ∧
  out_trace (submit_portal2 empty_store details_down)
    = [FetchSearch (lit "portal 2"); SaveCache; FetchDetails 620]
      ++ Reply NoDetails true :: [] ∧
  (NoDetails ≠ ThumbsUp →
   (SaveLists ∉ [FetchSearch (lit "portal 2"); SaveCache; FetchDetails 620]) ∧
   ∀ ch em, SendEmbed ch em ∉ [FetchSearch (lit "portal 2"); SaveCache; FetchDetails 620]).
Proof.
  assert (H1 : out_trace (submit_portal2 empty_store details_down)
                 `prefix_of` out_trace (submit_portal2 empty_store details_down))
    by (exists []; vm_compute; reflexivity).
  assert (H2 : out_trace (submit_portal2 empty_store details_down)
               = [FetchSearch (lit "portal 2"); SaveCache; FetchDetails 620]
                 ++ Reply NoDetails true :: [])
    by (vm_compute; reflexivity).
  split; [exact H1 |]. split; [exact H2 |].
  exact (proj2 (proj2 (proj2 (proj2 (proj2
    (wishlist_command_reply_is_last (rt := ascii_runtime) cfg0 empty_store
       (Some (lit "1001")) (lit "portal 2") (lit "alice") details_down
       _ _ _ _ _ H1 H2)))))).
Defined.

Lemma acknowledged_submission_is_appended_witness :
  final_step (submit_portal2 empty_store portal2_world) = Some (Reply ThumbsUp true) ∧
  ∃ g d,
    chosen (rt := ascii_runtime) empty_store (lit "portal 2") portal2_world = Some g ∧
    fetchSteamDetails (sr_appid g) (details_answer portal2_world) = Some d ∧
    SaveLists ∈ out_trace (submit_portal2 empty_store portal2_world) ∧
    let entry := {| entry_name := sr_name g; appid := sr_appid g; suggester := lit "alice" |} in
    (getGameType (rt := ascii_runtime) (d_categories d) = Single ∧
     ¬ present (sr_appid g) (singleList empty_store) ∧
     singleList (out_store (submit_portal2 empty_store portal2_world))
       = singleList empty_store ++ [entry] ∧
     multiList (out_store (submit_portal2 empty_store portal2_world))
       = multiList empty_store) ∨
    (getGameType (rt := ascii_runtime) (d_categories d) = Multi ∧
     ¬ present (sr_appid g) (multiList empty_store) ∧
     multiList (out_store (submit_portal2 empty_store portal2_world))
       = multiList empty_store ++ [entry] ∧
     singleList (out_store (submit_portal2 empty_store portal2_world))
       = singleList empty_store).
Proof.
  split; [vm_compute; reflexivity |].
  apply (acknowledged_submission_is_appended (rt := ascii_runtime) cfg0 empty_store
           (Some (lit "1001")) (lit "portal 2") (lit "alice") portal2_world).
  vm_compute. reflexivity.
Defined.

Lemma unique_ids_are_kept_witness :
  unique_ids (singleList drg_store) ∧ unique_ids (multiList drg_store) ∧
  unique_ids (singleList (run (rt := ascii_runtime) cfg0 drg_store session)) ∧
  unique_ids (multiList (run (rt := ascii_runtime) cfg0 drg_store session)).
Proof.
  assert (Hs : unique_ids (singleList drg_store)) by apply NoDup_singleton.
  assert (Hm : unique_ids (multiList drg_store)) by apply NoDup_singleton.
  split; [exact Hs |]. split; [exact Hm |].
  apply (unique_ids_are_kept (rt := ascii_runtime) cfg0 drg_store session Hs Hm).
Defined.

Lemma announced_entry_is_completed_witness :
  SendEmbed (Some (lit "1003")) portal2_embed
    ∈ out_trace (submit_portal2 empty_store portal2_world) ∧
  embed_appid (Some portal2_embed) = Some 620%Z ∧
  DeleteMessage
    ∈ out_trace (messageReactionAdd (rt := ascii_runtime) cfg0
                   (out_store (submit_portal2 empty_store portal2_world))
                   portal2_announcement (reactor "4") true) ∧
  ¬ present 620 (multiList
       (out_store (messageReactionAdd (rt := ascii_runtime) cfg0
                     (out_store (submit_portal2 empty_store portal2_world))
                     portal2_announcement (reactor "4") true))).
Proof.
  assert (Hsent : SendEmbed (Some (lit "1003")) portal2_embed
                    ∈ out_trace (submit_portal2 empty_store portal2_world)).
  { vm_compute. do 4 apply list_elem_of_further. apply list_elem_of_here. }
  destruct (announced_entry_is_completed (rt := ascii_runtime) cfg0 empty_store
              (Some (lit "1001")) (lit "portal 2") (lit "alice") portal2_world
              (to_result portal2_item) (Some (lit "1003")) portal2_embed
              portal2_announcement (server []) (reactor "4") true)
    as (_ & Hid & Hdel & _ & Hmulti);
    [vm_compute; reflexivity | vm_compute; reflexivity
    | split; vm_compute; discriminate
    | exact Hsent | reflexivity | reflexivity | reflexivity | vm_compute; lia |].
  split; [exact Hsent |]. split; [exact Hid |]. split; [exact Hdel | exact Hmulti].
Defined.

Lemma six_reactors_include_five :
  reactors_union five_reactors ⊆ reactors_union six_reactors.
Proof.
  unfold six_reactors, reactors_union. rewrite map_app, union_list_app_L.
  apply union_subseteq_l.
Defined.

Lemma quorum_survives_more_reactions_witness :
  DeleteMessage ∈ out_trace (react (server []) five_reactors) ∧
  DeleteMessage ∈ out_trace (react (server []) six_reactors).
Proof.
  assert (Hfive : DeleteMessage ∈ out_trace (react (server []) five_reactors)).
  { vm_compute. do 3 apply list_elem_of_further. apply list_elem_of_here. }
  split; [exact Hfive |].
  apply (quorum_survives_more_reactions (rt := ascii_runtime) cfg0 drg_store drg_store
           (announcement (server []) five_reactors) (announcement (server []) six_reactors)
           (reactor "4") (reactor "4") true true (server []));
    [reflexivity | reflexivity | reflexivity | reflexivity
    | exact six_reactors_include_five | exact Hfive].
Defined.

Lemma voice_channel_only_for_multi_witness :
  CreateVoice (lit "Deep Rock Galactic") (Some (lit "1004"))
    ∈ out_trace (react (server []) five_reactors) ∧
  ∃ g e id,
    guild (announcement (server []) five_reactors) = Some g ∧
    user_bot (reactor "4") = false ∧
    (totalHumans (rt := ascii_runtime) (resolve_members g).1
     ≤ size (uniqueReactors (reactions (announcement (server []) five_reactors))))%nat ∧
    head (embeds (announcement (server []) five_reactors)) = Some e ∧
    embed_appid (Some e) = Some id ∧
    present id (multiList drg_store) ∧
    existing_voice (rt := ascii_runtime) (channels_cache g)
      (capitalizedName (rt := ascii_runtime) e) = None ∧
    Some (lit "1004") = GAME_VOICE_CATEGORY_ID cfg0 ∧
    lit "Deep Rock Galactic"
      = or_else (capitalizedName (rt := ascii_runtime) e) (lit "Game Voice") ∧
    lit "Deep Rock Galactic" ≠ [] ∧ (length (lit "Deep Rock Galactic") ≤ 90)%nat.
Proof.
  assert (Hcreated : CreateVoice (lit "Deep Rock Galactic") (Some (lit "1004"))
                       ∈ out_trace (react (server []) five_reactors)).
  { vm_compute. do 2 apply list_elem_of_further. apply list_elem_of_here. }
  split; [exact Hcreated |].
  apply (voice_channel_only_for_multi (rt := ascii_runtime) cfg0 drg_store
           (announcement (server []) five_reactors) (reactor "4") true
           (lit "Deep Rock Galactic") (Some (lit "1004")) Hcreated).
Defined.

Lemma title_is_cased_word_by_word_witness :
  is_space 32 = true ∧
  replace_words (capitalize (rt := ascii_runtime)) None (lit "deep" ++ 32 :: lit "ROCK")
    = replace_words (capitalize (rt := ascii_runtime)) None (lit "deep")
      ++ 32 :: replace_words (capitalize (rt := ascii_runtime)) None (lit "ROCK").
Proof.
  split; [reflexivity |].
  destruct (title_is_cased_word_by_word (rt := ascii_runtime) (lit "deep") (lit "ROCK") 32)
    as [Hsplit _]; [reflexivity | exact Hsplit].
Defined.

Lemma legacy_search_caches_finds_only_witness :
  Legacy.searchSteamGame (rt := ascii_runtime) ∅ (lit "Portal 3") None
    = (None, ∅, [FetchSearch (lit "Portal 3")]) ∧
  ∃ t, t ∈ [portal2_item] ∧
       Legacy.searchSteamGame (rt := ascii_runtime) ∅ (lit "Portal 2")
         (Some [portal2_item])
         = (Some (to_result t),
            <[Legacy.cacheKey (rt := ascii_runtime) (lit "Portal 2") := to_result t]> ∅,
            [FetchSearch (lit "Portal 2"); SaveCache]).
Proof.
  split.
  - destruct (legacy_search_caches_finds_only (rt := ascii_runtime) ∅ (lit "Portal 3") None)
      as [Hnone _]; [vm_compute; reflexivity |].
    apply Hnone. by left.
  - destruct (legacy_search_caches_finds_only (rt := ascii_runtime) ∅ (lit "Portal 2")
                (Some [portal2_item])) as [_ Hsome]; [vm_compute; reflexivity |].
    destruct (Hsome portal2_item [] eq_refl) as (t & Hin & Hrun & _).
    exists t. split; [exact Hin | exact Hrun].
Defined.

Lemma legacy_duplicate_test_agrees_witness :
  getGameType (rt := ascii_runtime) (d_categories portal2_details) ≠ Unknown ∧
  Legacy.isDuplicate (getGameType (rt := ascii_runtime) (d_categories portal2_details))
    portal2_in_single (portal2_entry (lit "alice"))
  = dup (getGameType (rt := ascii_runtime) (d_categories portal2_details))
      portal2_in_single (portal2_entry (lit "alice")).
Proof.
  assert (Hknown : getGameType (rt := ascii_runtime) (d_categories portal2_details)
                   ≠ Unknown) by (vm_compute; discriminate).
  split; [exact Hknown |].
  destruct (legacy_duplicate_test_agrees (rt := ascii_runtime)
              (d_categories portal2_details) portal2_in_single
              (portal2_entry (lit "alice")) Hknown) as [Hagree _].
  exact Hagree.
Defined.
